(** * starlight-llms-txt: the HTML-to-Markdown tree pipeline

    A shallow embedding of [packages/starlight-llms-txt/entryToSimpleMarkdown.ts].

    The file has three layers.

    - The data the code works on: JavaScript strings, hast nodes and their
      property maps.
    - The library functions the plugins are written with ([matches],
      [select], [selectAll] of hast-util-select and [remove] of
      unist-util-remove 4).
    - The plugins themselves ([minifyLlmsTxt], [improveExpressiveCodeHandling],
      [improveTabsHandling], [improveFileTreeHandling]) and
      [entryToSimpleMarkdown], followed by the theorems about them.

    The code mutates one tree in place.  Every node of a parsed fragment has
    exactly one parent, so a plugin is modelled as a function from the tree
    before to the tree after; where the code keeps references to nodes across a
    mutation, the comment at the definition says which value the reference
    denotes at the time it is read.  The one place where the mutation leaves
    something that is not a tree (a node held under itself, lines 132-145) gives
    [None]: the traversals that follow do not end on it, so the call produces
    no text. *)

From stdpp Require Import gmap list.

(** ** JavaScript strings

    A string is a sequence of UTF-16 code units, each a number below 65536. *)
Inductive jsstring :=
| EmptyString
| String (c : N) (rest : jsstring).

(** String literals stand for the code units of their characters; they are
    written with ASCII characters only, and any other code unit is given by
    its number, as in [String 0x3000 EmptyString]. *)
Module JsLiteral.

Fixpoint ofBytes (l : list Byte.byte) : option jsstring :=
  match l with
  | [] => Some EmptyString
  | b :: rest =>
      if (Byte.to_N b <? 128)%N then String (Byte.to_N b) <$> ofBytes rest else None
  end.

Fixpoint toBytes (s : jsstring) : option (list Byte.byte) :=
  match s with
  | EmptyString => Some []
  | String c rest =>
      if (c <? 128)%N
      then match Byte.of_N c, toBytes rest with
           | Some b, Some l => Some (b :: l)
           | _, _ => None
           end
      else None
  end.

End JsLiteral.

Declare Scope jsstring_scope.
Delimit Scope jsstring_scope with js.
Bind Scope jsstring_scope with jsstring.
String Notation jsstring JsLiteral.ofBytes JsLiteral.toBytes : jsstring_scope.

Local Open Scope jsstring_scope.
Local Open Scope list_scope.

Module JsString.

Fixpoint units (s : jsstring) : list N :=
  match s with
  | EmptyString => []
  | String c rest => c :: units rest
  end.

Fixpoint ofUnits (l : list N) : jsstring :=
  match l with
  | [] => EmptyString
  | c :: rest => String c (ofUnits rest)
  end.

(** [s.length] *)
Fixpoint length (s : jsstring) : nat :=
  match s with
  | EmptyString => 0
  | String _ rest => S (length rest)
  end.

(** [a + b] *)
Fixpoint append (a b : jsstring) : jsstring :=
  match a with
  | EmptyString => b
  | String c rest => String c (append rest b)
  end.

(** [a === b] *)
Fixpoint eqb (a b : jsstring) : bool :=
  match a, b with
  | EmptyString, EmptyString => true
  | String c a', String d b' => (c =? d)%N && eqb a' b'
  | _, _ => false
  end.

(** [s.substring(n)] *)
Fixpoint drop (n : nat) (s : jsstring) : jsstring :=
  match n, s with
  | S n', String _ rest => drop n' rest
  | _, _ => s
  end.

(** ECMAScript's WhiteSpace and LineTerminator code points: TAB, LF, VT, FF,
    CR, SPACE, NBSP, OGHAM SPACE MARK, EN QUAD to HAIR SPACE, LINE SEPARATOR,
    PARAGRAPH SEPARATOR, NARROW NBSP, MEDIUM MATHEMATICAL SPACE, IDEOGRAPHIC
    SPACE and ZERO WIDTH NBSP.  They are what [String.prototype.trim] strips
    and what the regular expression class [\s] matches; each is one code
    unit. *)
Definition isWhiteSpace (c : N) : bool :=
  ((0x0009 <=? c) && (c <=? 0x000D)
   || (c =? 0x0020) || (c =? 0x00A0) || (c =? 0x1680)
   || (0x2000 <=? c) && (c <=? 0x200A)
   || (c =? 0x2028) || (c =? 0x2029) || (c =? 0x202F) || (c =? 0x205F)
   || (c =? 0x3000) || (c =? 0xFEFF))%N.

Fixpoint trimStart (s : jsstring) : jsstring :=
  match s with
  | EmptyString => EmptyString
  | String c rest => if isWhiteSpace c then trimStart rest else s
  end.

Fixpoint trimEnd (s : jsstring) : jsstring :=
  match s with
  | EmptyString => EmptyString
  | String c rest =>
      match trimEnd rest with
      | EmptyString => if isWhiteSpace c then EmptyString else String c EmptyString
      | kept => String c kept
      end
  end.

(** [s.trim()] *)
Definition trim (s : jsstring) : jsstring := trimEnd (trimStart s).

(** [s.endsWith(suffix)] *)
Definition endsWith (s suffix : jsstring) : bool :=
  let n := length s in
  let k := length suffix in
  (k <=? n)%nat && eqb (drop (n - k) s) suffix.

(** [s.replace(/\s+/g, ' ')]: the scan goes left to right; [inRun] tells
    that the previous code unit was white space, so that the match in
    progress swallows the current one. *)
Fixpoint collapseFrom (inRun : bool) (s : jsstring) : jsstring :=
  match s with
  | EmptyString => EmptyString
  | String c rest =>
      if isWhiteSpace c
      then if inRun then collapseFrom true rest
           else String 0x0020 (collapseFrom true rest)
      else String c (collapseFrom false rest)
  end.

Definition collapseWhitespace (s : jsstring) : jsstring := collapseFrom false s.

(** [parts.join('')] *)
Definition join (parts : list jsstring) : jsstring :=
  foldr append EmptyString parts.

(** [parts.join(sep)] *)
Fixpoint joinWith (sep : jsstring) (parts : list jsstring) : jsstring :=
  match parts with
  | [] => EmptyString
  | [p] => p
  | p :: rest => append p (append sep (joinWith sep rest))
  end.

End JsString.

Infix "+:+" := JsString.append (at level 60, right associativity) : jsstring_scope.

#[global] Instance jsstring_eq_dec : EqDecision jsstring.
Proof. solve_decision. Defined.

#[global] Instance jsstring_countable : Countable jsstring.
Proof.
  apply (inj_countable' JsString.units JsString.ofUnits).
  intros s. induction s as [|c rest IH]; [reflexivity|].
  simpl. rewrite IH. reflexivity.
Defined.


(** ** hast nodes *)
Module Hast.

(** A property value as the parser produces it: a string, a list of tokens
    (for [class] and the other space- or comma-separated attributes), a
    boolean or a number.  The code never computes with a number; it reads one
    through [String] and through its truthiness only, so a number is held as
    the text [String] gives for it. *)
Inductive PropertyValue :=
| PStr (s : jsstring)
| PTokens (tokens : list jsstring)
| PBool (b : bool)
| PNum (text : jsstring).

Abbreviation Properties := (gmap jsstring PropertyValue).

Unset Elimination Schemes.
Inductive Node :=
| Root (children : list Node)
| Element (tagName : jsstring) (properties : Properties) (children : list Node)
| Text (value : jsstring)
| Comment (value : jsstring)
| Doctype.
Set Elimination Schemes.

(** Induction with the hypothesis available for every child. *)
Definition Node_ind (P : Node -> Prop)
    (HRoot : forall kids, Forall P kids -> P (Root kids))
    (HElement : forall tag props kids, Forall P kids -> P (Element tag props kids))
    (HText : forall v, P (Text v))
    (HComment : forall v, P (Comment v))
    (HDoctype : P Doctype) : forall n, P n :=
  fix go (n : Node) : P n :=
    let all := fix all (l : list Node) : Forall P l :=
      match l with
      | [] => List.Forall_nil P
      | k :: rest => @List.Forall_cons Node P k rest (go k) (all rest)
      end in
    match n with
    | Root kids => HRoot kids (all kids)
    | Element tag props kids => HElement tag props kids (all kids)
    | Text v => HText v
    | Comment v => HComment v
    | Doctype => HDoctype
    end.

(** [node.children], empty for the literals. *)
Definition childrenOf (n : Node) : list Node :=
  match n with
  | Root kids | Element _ _ kids => kids
  | _ => []
  end.

(** [node.children = kids] on a parent; the literals have no such field. *)
Definition withChildren (n : Node) (kids : list Node) : Node :=
  match n with
  | Root _ => Root kids
  | Element tag props _ => Element tag props kids
  | other => other
  end.

(** Every node strictly below [n], in document order. *)
Fixpoint descendants (n : Node) : list Node :=
  let below := fix below (l : list Node) : list Node :=
    match l with
    | [] => []
    | k :: rest => k :: descendants k ++ below rest
    end in
  match n with
  | Root kids | Element _ _ kids => below kids
  | _ => []
  end.

(** [n] and every node below it. *)
Definition subnodes (n : Node) : list Node := n :: descendants n.

Fixpoint height (n : Node) : nat :=
  let tallest := fix tallest (l : list Node) : nat :=
    match l with
    | [] => 0
    | k :: rest => Nat.max (height k) (tallest rest)
    end in
  match n with
  | Root kids | Element _ _ kids => S (tallest kids)
  | _ => 0
  end.

(** [properties.className] read as the code reads it (line 85): the token
    array, and no tokens when the property is not an array.  The parser
    delivers the [class] attribute as a token array. *)
Definition classList (props : Properties) : list jsstring :=
  match props !! "className" with
  | Some (PTokens tokens) => tokens
  | _ => []
  end.

(** The class tokens of a node; only elements have any. *)
Definition classesOf (node : Node) : list jsstring :=
  match node with
  | Element _ props _ => classList props
  | _ => []
  end.

(** The values of the text nodes of [node], in document order. *)
Definition textsOf (node : Node) : list jsstring :=
  omap (fun d => match d with Text value => Some value | _ => None end) (subnodes node).

(** JavaScript truthiness of a property that may be missing; the numbers that
    are not truthy are [0], [-0] and [NaN]. *)
Definition truthy (v : option PropertyValue) : bool :=
  match v with
  | None => false
  | Some (PStr s) => negb (JsString.eqb s "")
  | Some (PTokens _) => true
  | Some (PBool b) => b
  | Some (PNum text) => negb (JsString.eqb text "0" || JsString.eqb text "NaN")
  end.

(** [String(v)], as a template literal computes it. *)
Definition toString (v : PropertyValue) : jsstring :=
  match v with
  | PStr s => s
  | PTokens tokens => JsString.joinWith "," tokens
  | PBool b => if b then "true" else "false"
  | PNum text => text
  end.

End Hast.
Import Hast.

(** ** hast-util-select

    [matches] decides from one element alone, its tag name, its properties and
    what lies below it; on a selector with a combinator or with a pseudo-class
    that asks for the element's parent or siblings it throws instead of
    answering, and such a selector has no place here.  A selector is kept in
    parsed form: a comma-separated list of compound selectors, each a sequence
    of simple selectors.  The selectors of the source are made of tag names,
    classes, [[role="..."]] and [:not()].  [customSelectors] are strings the
    user writes, so [SOther] stands for every other simple selector the
    library answers ([[lang|="en"]], [:empty], [:has(img)], ...), given by
    what it decides. *)
Module HastUtilSelect.

Unset Elimination Schemes.
Inductive Simple :=
| STag (name : jsstring)                       (* [div] *)
| SClass (name : jsstring)                     (* [.name] *)
| SAttrEq (attribute property value : jsstring) (* [[attribute="value"]] *)
| SNot (alternatives : list (list Simple))     (* [:not(a, b)] *)
| SOther (holds : jsstring -> Properties -> list Node -> bool).
Set Elimination Schemes.

Abbreviation Compound := (list Simple).
Abbreviation Selector := (list Compound).

(** The text an attribute test compares with.  The parsed test names the
    attribute and the property that holds it ([data-language] and
    [dataLanguage]; for [role] both are [role]).  A string is compared as it
    is and a number as its text; [true] counts as the attribute's name; the
    tokens of a non-empty list are joined by single spaces and the result is
    trimmed (the attributes whose lists are joined by commas are left to
    [SOther]); a missing property, [false] and the empty list give no text. *)
Definition attributeValue (attribute property : jsstring) (props : Properties) :
    option jsstring :=
  match props !! property with
  | None => None
  | Some (PStr s) => Some s
  | Some (PTokens []) => None
  | Some (PTokens tokens) => Some (JsString.trim (JsString.joinWith " " tokens))
  | Some (PBool b) => if b then Some attribute else None
  | Some (PNum text) => Some text
  end.

Fixpoint matchesSimple (tag : jsstring) (props : Properties) (kids : list Node)
    (s : Simple) : bool :=
  match s with
  | STag name => JsString.eqb name tag
  | SClass name => bool_decide (name ∈ classList props)
  | SAttrEq attribute property value =>
      match attributeValue attribute property props with
      | Some actual => JsString.eqb value actual
      | None => false
      end
  | SNot alternatives =>
      negb (existsb (forallb (matchesSimple tag props kids)) alternatives)
  | SOther holds => holds tag props kids
  end.

(** [matches(selector, node)]: only elements match. *)
Definition matches (selector : Selector) (node : Node) : bool :=
  match node with
  | Element tag props kids => existsb (forallb (matchesSimple tag props kids)) selector
  | _ => false
  end.

(** [selectAll(selector, tree)]: the matching elements in document order,
    [tree] itself included when it is an element that matches. *)
Fixpoint selectAll (selector : Selector) (tree : Node) : list Node :=
  let below := fix below (l : list Node) : list Node :=
    match l with
    | [] => []
    | k :: rest => selectAll selector k ++ below rest
    end in
  match tree with
  | Root kids => below kids
  | Element _ _ kids => (if matches selector tree then [tree] else []) ++ below kids
  | _ => []
  end.

(** [select(selector, tree)]: the first of them. *)
Definition select (selector : Selector) (tree : Node) : option Node :=
  head (selectAll selector tree).

(** [:empty], one of the selectors [SOther] stands for: no child of the
    element is an element or a text. *)
Definition pseudoEmpty : Simple :=
  SOther (fun _ _ kids =>
            forallb (fun kid => match kid with
                                | Element _ _ _ | Text _ => false
                                | _ => true
                                end) kids).

End HastUtilSelect.
Import HastUtilSelect.

(** ** Assignment through a selected reference

    [const x = select(selector, tree); x.field = ...] changes the selected
    node where it sits in [tree].  [updateSelected selector f tree] is [tree]
    with [f] applied to the node [select selector tree] returns, and [tree]
    itself when nothing is selected. *)
Module InPlace.

Fixpoint updateFirst (selector : Selector) (f : Node -> Node) (tree : Node) : option Node :=
  let below := fix below (l : list Node) : option (list Node) :=
    match l with
    | [] => None
    | k :: rest =>
        match updateFirst selector f k with
        | Some k' => Some (k' :: rest)
        | None => cons k <$> below rest
        end
    end in
  match tree with
  | Root kids => Root <$> below kids
  | Element tag props kids =>
      if matches selector tree then Some (f tree)
      else Element tag props <$> below kids
  | _ => None
  end.

(** The loop of [updateFirst] over a list of children, under a name. *)
Definition updateFirstAmong (selector : Selector) (f : Node -> Node) :
    list Node -> option (list Node) :=
  fix below (l : list Node) : option (list Node) :=
    match l with
    | [] => None
    | k :: rest =>
        match updateFirst selector f k with
        | Some k' => Some (k' :: rest)
        | None => cons k <$> below rest
        end
    end.

Definition updateSelected (selector : Selector) (f : Node -> Node) (tree : Node) : Node :=
  default tree (updateFirst selector f tree).

End InPlace.
Import InPlace.

(** ** unist-util-remove (version 4)

    [remove(tree, test)] walks [tree] in preorder.  A node that passes [test]
    is dropped with everything below it and [test] is never asked about its
    descendants; the children that stay are moved to the front of their
    parent's array and the array is cut after them.  With the default
    [cascade: true], a parent that had children and lost all of them is
    dropped too.  [tree] itself is neither tested nor dropped. *)
Module UnistUtilRemove.

(** The inner [preorder(node, index, parent)] for a node other than [tree]:
    [None] when the node goes, the node as it is afterwards when it stays. *)
Fixpoint preorder (test : Node -> bool) (node : Node) : option Node :=
  if test node then None
  else match node with
       | Root kids =>
           match kids, omap (preorder test) kids with
           | [], _ => Some node
           | _, [] => None
           | _, living => Some (Root living)
           end
       | Element tag props kids =>
           match kids, omap (preorder test) kids with
           | [], _ => Some node
           | _, [] => None
           | _, living => Some (Element tag props living)
           end
       | _ => Some node
       end.

Definition remove (test : Node -> bool) (tree : Node) : Node :=
  withChildren tree (omap (preorder test) (childrenOf tree)).

End UnistUtilRemove.
Import UnistUtilRemove.

(** ** The selectors the pipeline uses, in parsed form *)
Module Selectors.

Definition details : Selector := [[STag "details"]].                   (* ['details'] *)
Definition starlightAside : Selector := [[SClass "starlight-aside"]].  (* ['.starlight-aside'] *)
Definition expressiveCode : Selector := [[SClass "expressive-code"]].  (* ['.expressive-code'] *)
Definition figcaption : Selector := [[STag "figcaption"]].             (* ['figcaption'] *)
Definition spanSrOnly : Selector := [[STag "span"; SClass "sr-only"]]. (* ['span.sr-only'] *)
Definition pre : Selector := [[STag "pre"]].                           (* ['pre'] *)
Definition code : Selector := [[STag "code"]].                         (* ['code'] *)
(** ['div.ec-line.ins, div.ec-line.del'] *)
Definition diffLine : Selector :=
  [[STag "div"; SClass "ec-line"; SClass "ins"];
   [STag "div"; SClass "ec-line"; SClass "del"]].
(** ['span:not(.indent)'] *)
Definition spanNotIndent : Selector := [[STag "span"; SNot [[SClass "indent"]]]].
Definition starlightTabs : Selector := [[STag "starlight-tabs"]].      (* ['starlight-tabs'] *)
Definition tab : Selector := [[SAttrEq "role" "role" "tab"]].          (* ['[role="tab"]'] *)
(** ['[role="tabpanel"]'] *)
Definition tabpanel : Selector := [[SAttrEq "role" "role" "tabpanel"]].
(** ['starlight-file-tree'] *)
Definition starlightFileTree : Selector := [[STag "starlight-file-tree"]].
Definition srOnly : Selector := [[SClass "sr-only"]].                  (* ['.sr-only'] *)

End Selectors.

(** ** Minification options (lines 15-29) *)

Inductive AsideVariant := Note | Tip | Caution | Danger.

Definition variantName (variant : AsideVariant) : jsstring :=
  match variant with
  | Note => "note" | Tip => "tip" | Caution => "caution" | Danger => "danger"
  end.

Record MinifyOptions := {
  note : bool;
  tip : bool;
  caution : bool;
  danger : bool;
  details : bool;
  whitespace : bool;
  customSelectors : list Selector;
}.

Definition minifyDefaults : MinifyOptions := {|
  note := true;
  tip := true;
  caution := false;
  danger := false;
  details := true;
  whitespace := true;
  customSelectors := [];
|}.

(** The options of the user's configuration: every key may be left out. *)
Record UserMinifyOptions := {
  userNote : option bool;
  userTip : option bool;
  userCaution : option bool;
  userDanger : option bool;
  userDetails : option bool;
  userWhitespace : option bool;
  userCustomSelectors : option (list Selector);
}.

(** [{ ...minifyDefaults, ...starlightLllmsTxtContext.minify }] *)
Definition resolveMinify (user : UserMinifyOptions) : MinifyOptions := {|
  note := default (note minifyDefaults) (userNote user);
  tip := default (tip minifyDefaults) (userTip user);
  caution := default (caution minifyDefaults) (userCaution user);
  danger := default (danger minifyDefaults) (userDanger user);
  details := default (details minifyDefaults) (userDetails user);
  whitespace := default (whitespace minifyDefaults) (userWhitespace user);
  customSelectors := default (customSelectors minifyDefaults) (userCustomSelectors user);
|}.

(** [minify[variant]] *)
Definition variantFlag (minify : MinifyOptions) (variant : AsideVariant) : bool :=
  match variant with
  | Note => note minify | Tip => tip minify
  | Caution => caution minify | Danger => danger minify
  end.

(** [`.starlight-aside--${variant}`] *)
Definition variantSelector (variant : AsideVariant) : Selector :=
  [[SClass ("starlight-aside--" +:+ variantName variant)]].

(** [selectors]: the custom selectors, with ['details'] put in front when that
    option is on. *)
Definition selectors (minify : MinifyOptions) : list Selector :=
  if details minify then Selectors.details :: customSelectors minify
  else customSelectors minify.

(** ** Running a handler on every selected node

    Three plugins have the shape
    [for (const instance of selectAll(selector, tree)) { handler(instance) }].
    The list holds the matching nodes of the tree as it is before the loop, in
    document order, and a handler changes nothing outside the subtree of its
    instance.  So when a node's turn comes, everything done so far to its
    subtree was done by the handlers of its ancestors, and what is left to do
    below it is the handlers of the selected nodes still in its subtree.  None
    of the handlers makes a node start to match the selector.  A selected node
    that a handler has cut out of the tree is still handled by the loop, with
    no effect on the tree.

    [fuel] bounds the depth of the walk. *)
Fixpoint forEachSelected (fuel : nat) (selector : Selector)
    (handler : Node -> Node) (node : Node) : Node :=
  match fuel with
  | 0 => node
  | S fuel' =>
      let node' := if matches selector node then handler node else node in
      withChildren node'
        (map (forEachSelected fuel' selector handler) (childrenOf node'))
  end.

(** The same walk with a handler that may leave no tree behind. *)
Fixpoint forEachSelectedM (fuel : nat) (selector : Selector)
    (handler : Node -> option Node) (node : Node) : option Node :=
  match fuel with
  | 0 => Some node
  | S fuel' =>
      node' ← (if matches selector node then handler node else Some node);
      kids ← mapM (forEachSelectedM fuel' selector handler) (childrenOf node');
      Some (withChildren node' kids)
  end.

(** ** Plugin [minifyLlmsTxt] (lines 37-65) *)

(** The test given to [remove]. *)
Definition minifyTest (minify : MinifyOptions) (node : Node) : bool :=
  existsb (fun selector => matches selector node) (selectors minify)
  || (matches Selectors.starlightAside node
      && existsb (fun variant =>
                    variantFlag minify variant && matches (variantSelector variant) node)
                 [Note; Tip; Caution; Danger]).

(** [requested] is [file.data.starlightLlmsTxt.minify]. *)
Definition minifyLlmsTxt (minify : MinifyOptions) (requested : bool) (tree : Node) : Node :=
  if negb requested then tree
  else remove (minifyTest minify) tree.

(** ** Plugin [improveExpressiveCodeHandling] (lines 66-110) *)

(** [l.splice(l.findIndex(p), 1)] when the index is found. *)
Fixpoint spliceFirst (p : Node -> bool) (l : list Node) : list Node :=
  match l with
  | [] => []
  | x :: rest => if p x then rest else x :: spliceFirst p rest
  end.

(** Lines 71-79: the first [span.sr-only] child of the first [figcaption]. *)
Definition removeTerminalLabel (instance : Node) : Node :=
  updateSelected Selectors.figcaption
    (fun figcaption =>
       withChildren figcaption
         (spliceFirst (matches Selectors.spanSrOnly) (childrenOf figcaption)))
    instance.

(** Lines 101-104 on the selected span. *)
Definition prefixFirstChild (marker : jsstring) (span : Node) : Node :=
  match childrenOf span with
  | Text value :: rest => withChildren span (Text (marker +:+ value) :: rest)
  | _ => span
  end.

(** Lines 96-104, the body of the loop over [diffLines].  A line is in
    [diffLines] because it matched a class selector, so its [className] is a
    token array. *)
Definition markDiffLine (line : Node) : Node :=
  match line with
  | Element _ props _ =>
      match props !! "className" with
      | Some (PTokens classes) =>
          let marker := if bool_decide ("ins" ∈ classes) then "+" else "-" in
          updateSelected Selectors.spanNotIndent (prefixFirstChild marker) line
      | _ => line
      end
  | _ => line
  end.

(** [pre.properties.dataLanguage === 'diff'] *)
Definition isDiff (language : PropertyValue) : bool :=
  match language with
  | PStr s => JsString.eqb s "diff"
  | _ => false
  end.

(** [code.properties.className.push(token)], after line 85 has made the
    property an array. *)
Definition pushClass (token : jsstring) (props : Properties) : Properties :=
  <["className" := PTokens (classList props ++ [token])]> props.

(** Lines 85-106 on the [code] element; [language] is
    [pre.properties.dataLanguage]. *)
Definition setCodeLanguage (language : PropertyValue) (code : Node) : Node :=
  match code with
  | Element tag props kids =>
      let diffLines :=
        if isDiff language then []
        else List.filter (matches Selectors.diffLine) kids in
      match diffLines with
      | [] => Element tag (pushClass ("language-" +:+ toString language) props) kids
      | _ =>
          Element tag (pushClass "language-diff" props)
            (map (fun child =>
                    if matches Selectors.diffLine child then markDiffLine child else child)
                 kids)
      end
  | _ => code
  end.

(** [pre?.properties.dataLanguage] *)
Definition dataLanguage (pre : option Node) : option PropertyValue :=
  match pre with
  | Some (Element _ props _) => props !! "dataLanguage"
  | _ => None
  end.

(** The body of the loop over [ecInstances]. *)
Definition expressiveCodeInstance (instance : Node) : Node :=
  let instance := removeTerminalLabel instance in
  let pre := select Selectors.pre instance in
  let code := select Selectors.code instance in
  match dataLanguage pre, code with
  | Some language, Some _ =>
      if truthy (Some language)
      then updateSelected Selectors.code (setCodeLanguage language) instance
      else instance
  | _, _ => instance
  end.

Definition improveExpressiveCodeHandling (tree : Node) : Node :=
  forEachSelected (S (height tree)) Selectors.expressiveCode expressiveCodeInstance tree.

(** ** Plugin [improveTabsHandling] (lines 111-149) *)

(** Lines 127-130.  The callback of [map] gives [false] for a child that is
    not text, which [join] would print as a word; [filter] has left no such
    child. *)
Definition tabLabel (tab : Node) : jsstring :=
  JsString.join
    (map (fun child => match child with
                       | Text value => JsString.trim value
                       | _ => "false"
                       end)
       (List.filter (fun child => match child with
                                  | Text value => negb (JsString.eqb (JsString.trim value) "")
                                  | _ => false
                                  end)
          (childrenOf tab))).

(** Lines 132-145. *)
Definition listItem (tab panel : Node) : Node :=
  Element "li" ∅ [Element "p" ∅ [Text (tabLabel tab)]; panel].

(** The widget as lines 118-120 leave it. *)
Definition emptiedWidget : Node := Element "ul" ∅ [].

(** The body of the loop over [tabInstances].

    [selectAll(selector, instance)] gives [instance] itself first when it
    matches, then the matching nodes below it.  The two lists are made (lines
    115-116) before lines 118-120 turn the widget into an empty [ul], and a
    list entry is a reference.  So where the widget is its own first tab,
    line 127 reads the children of the emptied widget.  Where the widget is
    its own first panel and there is a tab to pair it with, line 132 pushes
    the widget under an item of its own list: what is left is no tree, and
    the result is [None].

    A panel that lies inside another panel of the same widget is in the list
    too, so the new [ul] shows it twice, inside the outer panel and in an item
    of its own.  In the code the two are one object; here they are two equal
    subtrees. *)
Definition tabsInstance (instance : Node) : option Node :=
  match instance with
  | Element _ _ kids =>
      let tabs :=
        (if matches Selectors.tab instance then [emptiedWidget] else [])
        ++ flat_map (selectAll Selectors.tab) kids in
      let panelsBelow := flat_map (selectAll Selectors.tabpanel) kids in
      if matches Selectors.tabpanel instance
      then match tabs with
           | [] => Some emptiedWidget
           | _ :: _ => None
           end
      else Some (Element "ul" ∅ (zip_with listItem tabs panelsBelow))
  | _ => Some instance
  end.

Definition improveTabsHandling (tree : Node) : option Node :=
  forEachSelectedM (2 * S (height tree)) Selectors.starlightTabs tabsInstance tree.

(** ** Plugin [improveFileTreeHandling] (lines 150-161) *)

Definition fileTreeInstance (tree : Node) : Node :=
  remove (matches Selectors.srOnly) tree.

Definition improveFileTreeHandling (tree : Node) : Node :=
  forEachSelected (S (height tree)) Selectors.starlightFileTree fileTreeInstance tree.

(** ** The pipeline and [entryToSimpleMarkdown] (lines 35-36, 162-191) *)

(** The four tree plugins in the order [.use] chains them. *)
Definition treePlugins (minify : MinifyOptions) (shouldMinify : bool) (tree : Node) :
    option Node :=
  improveFileTreeHandling
    <$> improveTabsHandling
          (improveExpressiveCodeHandling
             (minifyLlmsTxt minify shouldMinify tree)).

(** Lines 186-190. *)
Definition finishMarkdown (minify : MinifyOptions) (shouldMinify : bool)
    (file : jsstring) : jsstring :=
  let markdown := JsString.trim file in
  if shouldMinify && whitespace minify
  then JsString.collapseWhitespace markdown
  else markdown.

Module AstroContent.
(** The two fields of a collection entry the function reads; [body] may be
    undefined. *)
Record CollectionEntry := { id : jsstring; body : option jsstring }.
End AstroContent.

Section EntryToSimpleMarkdown.

(** [starlightLllmsTxtContext.rawMDX] and the resolved [minify]. *)
Variable rawMDX : bool.
Variable minify : MinifyOptions.

(** What the environment supplies: rendering an entry to HTML ([render] and
    [astroContainer.renderToString]), rehype-parse in fragment mode, and the
    conversion to Markdown text (rehype-remark, remark-gfm,
    remark-stringify). *)
Variable APIContext : Type.
Variable renderToString : AstroContent.CollectionEntry -> APIContext -> jsstring.
Variable rehypeParse : jsstring -> Node.
Variable toMarkdown : Node -> jsstring.

(** [String(await htmlToMarkdownPipeline.process({ value: html, data }))];
    [None] when the plugins leave no tree to convert. *)
Definition htmlToMarkdownPipeline (html : jsstring) (shouldMinify : bool) :
    option jsstring :=
  toMarkdown <$> treePlugins minify shouldMinify (rehypeParse html).

(** The text the promise resolves to; [None] when it is rejected. *)
Definition entryToSimpleMarkdown (entry : AstroContent.CollectionEntry)
    (context : APIContext) (shouldMinify : bool) : option jsstring :=
  if JsString.endsWith (AstroContent.id entry) ".mdx" || rawMDX
  then Some (default "" (AstroContent.body entry))
  else
    let html := renderToString entry context in
    file ← htmlToMarkdownPipeline html shouldMinify;
    Some (finishMarkdown minify shouldMinify file).

End EntryToSimpleMarkdown.

(** ** Notions the statements below are written with *)

(** What the specification says in its own words, to be compared with what
    the code computes, and the predicates the statements use. *)
Module Spec.

Definition isWhiteSpaceRun (run : jsstring) : bool :=
  match run with
  | String c _ => JsString.isWhiteSpace c
  | EmptyString => false
  end.

(** The maximal runs, left to right. *)
Fixpoint runs (s : jsstring) : list jsstring :=
  match s with
  | EmptyString => []
  | String c rest =>
      match runs rest with
      | String d run :: others =>
          if Bool.eqb (JsString.isWhiteSpace c) (JsString.isWhiteSpace d)
          then String c (String d run) :: others
          else String c EmptyString :: String d run :: others
      | _ => [String c EmptyString]
      end
  end.

(** White-space collapse as the specification words it: cut the text into its
    maximal runs of white space and of other code units, and put one space for
    each run of white space. *)
Definition collapseRuns (s : jsstring) : jsstring :=
  JsString.join
    (map (fun run => if isWhiteSpaceRun run then " " else run) (runs s)).

(** Every code unit of [run] is of the given kind. *)
Fixpoint uniform (kind : bool) (run : jsstring) : bool :=
  match run with
  | EmptyString => true
  | String c rest => Bool.eqb (JsString.isWhiteSpace c) kind && uniform kind rest
  end.

(** Neighbouring runs are of different kinds, and none is empty. *)
Fixpoint alternating (l : list jsstring) : bool :=
  match l with
  | [] => true
  | run :: rest =>
      negb (JsString.eqb run "")
      && uniform (isWhiteSpaceRun run) run
      && match rest with
         | next :: _ => negb (Bool.eqb (isWhiteSpaceRun run) (isWhiteSpaceRun next))
         | [] => true
         end
      && alternating rest
  end.

(** No two white-space code units next to each other. *)
Fixpoint noAdjacentWhiteSpace (s : jsstring) : bool :=
  match s with
  | String c (String d _ as rest) =>
      negb (JsString.isWhiteSpace c && JsString.isWhiteSpace d)
      && noAdjacentWhiteSpace rest
  | _ => true
  end.

(** The only white space is the space character. *)
Fixpoint onlySpaces (s : jsstring) : bool :=
  match s with
  | EmptyString => true
  | String c rest =>
      (negb (JsString.isWhiteSpace c) || (c =? 0x0020)%N) && onlySpaces rest
  end.

(** The label of a tab as the specification words it: the tab's direct text
    children, each trimmed, the empty ones left out, joined with nothing in
    between. *)
Definition labelText (tab : Node) : jsstring :=
  JsString.join
    (List.filter (fun text => negb (JsString.eqb text ""))
       (map JsString.trim
          (omap (fun child => match child with Text value => Some value | _ => None end)
             (childrenOf tab)))).

(** The text does not begin, respectively end, with white space. *)
Definition startsClean (s : jsstring) : bool :=
  match s with
  | String c _ => negb (JsString.isWhiteSpace c)
  | EmptyString => true
  end.

Fixpoint endsClean (s : jsstring) : bool :=
  match s with
  | EmptyString => true
  | String c EmptyString => negb (JsString.isWhiteSpace c)
  | String _ rest => endsClean rest
  end.

End Spec.

(** ** Sample trees

    The fragments of the specification's end-to-end scenarios, as rehype-parse
    delivers them. *)
Module Scenario.

Definition classes (tokens : list jsstring) : Properties :=
  {["className" := PTokens tokens]}.

Definition language (name : jsstring) : Properties :=
  {["dataLanguage" := PStr name]}.

(** [<div class="ec-line KIND"><div class="code"><span>TEXT</span></div></div>] *)
Definition ecLine (kind text : jsstring) : Node :=
  Element "div" (classes ["ec-line"; kind])
    [Element "div" (classes ["code"]) [Element "span" ∅ [Text text]]].

(** A terminal frame as Expressive Code renders it, with the given properties
    on [pre] and [code]. *)
Definition codeSample (preProps codeProps : Properties) (lines : list Node) : Node :=
  Element "div" (classes ["expressive-code"])
    [Element "figure" (classes ["frame"; "is-terminal"])
       [Element "figcaption" (classes ["header"])
          [Element "span" (classes ["title"]) [];
           Element "span" (classes ["sr-only"]) [Text "Terminal window"]];
        Element "pre" preProps [Element "code" codeProps lines]]].

Definition fooBar : list Node := [ecLine "ins" "foo"; ecLine "del" "bar"].

Definition oldNew : list Node := [ecLine "del" "old"; ecLine "ins" "new"].

(** Two spaces, [a], a space, TAB, LF, two spaces, [b], two spaces. *)
Definition spaced : jsstring :=
  "  a " +:+ String 0x0009 (String 0x000A "  b  ").

(** IDEOGRAPHIC SPACE, [a], EM SPACE, LINE SEPARATOR, [b], ZERO WIDTH NBSP,
    LF. *)
Definition spacedWide : jsstring :=
  String 0x3000 ("a" +:+ String 0x2003 (String 0x2028 ("b" +:+ String 0xFEFF (String 0x000A "")))).

(** Scenario B: two tabs, [npm] with an icon and white space around the
    label, and [pnpm]. *)
Definition tabsScenario : Node :=
  Element "starlight-tabs" ∅
    [Element "div" (classes ["tablist-wrapper"])
       [Element "ul" {["role" := PStr "tablist"]}
          [Element "li" (<["role" := PStr "presentation"]> (classes ["tab"]))
             [Element "a" {["role" := PStr "tab"]} [Element "svg" ∅ []; Text " npm "]];
           Element "li" (<["role" := PStr "presentation"]> (classes ["tab"]))
             [Element "a" {["role" := PStr "tab"]} [Text "pnpm"]]]];
     Element "div" {["role" := PStr "tabpanel"]} [Element "p" ∅ [Text "npm install"]];
     Element "div" {["role" := PStr "tabpanel"]} [Element "p" ∅ [Text "pnpm install"]]].

(** Scenario A with a [details] element wrapped in a section. *)
Definition asideScenario : Node :=
  Root [Element "aside" (classes ["starlight-aside"; "starlight-aside--note"])
          [Element "p" ∅ [Text "Heads up"]];
        Element "section" ∅ [Element "details" ∅ [Element "summary" ∅ [Text "More"]]];
        Element "p" ∅ [Text "Body"]].

(** A file tree with one directory entry. *)
Definition fileTreeScenario : Node :=
  Root [Element "starlight-file-tree" ∅
          [Element "ul" ∅
             [Element "li" (classes ["directory"])
                [Element "details" ∅
                   [Element "summary" ∅
                      [Element "span" (classes ["tree-entry"])
                         [Element "span" ∅ [Text "src"];
                          Element "span" (classes ["sr-only"]) [Text "Directory"]]]]]]]].

(** The default options with the custom selector ['div:empty']. *)
Definition emptyDivOptions : MinifyOptions := {|
  note := true;
  tip := true;
  caution := false;
  danger := false;
  details := true;
  whitespace := true;
  customSelectors := [[[STag "div"; pseudoEmpty]]];
|}.

(** The default options with the custom selector ['.banner']. *)
Definition bannerOptions : MinifyOptions := {|
  note := true;
  tip := true;
  caution := false;
  danger := false;
  details := true;
  whitespace := true;
  customSelectors := [[[SClass "banner"]]];
|}.

(** A tabs widget that itself carries [role="tab"]. *)
Definition tabsWidgetAsTab : Node :=
  Element "starlight-tabs" {["role" := PStr "tab"]}
    [Text "Label"; Element "div" {["role" := PStr "tabpanel"]} [Text "panel"]].

(** A tabs widget that itself carries [role="tabpanel"]. *)
Definition tabsWidgetAsPanel : Node :=
  Element "starlight-tabs" {["role" := PStr "tabpanel"]}
    [Element "a" {["role" := PStr "tab"]} [Text "npm"]].

End Scenario.

(** ** Notions about trees *)

(** [node] lies below [root], and neither [node] nor any node between the two
    passes [test]. *)
Inductive clearPath (test : Node -> bool) : Node -> Node -> Prop :=
| clear_child parent child :
    child ∈ childrenOf parent -> test child = false -> clearPath test parent child
| clear_below parent child node :
    child ∈ childrenOf parent -> test child = false ->
    clearPath test child node -> clearPath test parent node.

(** [test] decides from the node's own tag and properties, whatever its
    children are. *)
Definition Shallow (test : Node -> bool) : Prop :=
  ∀ node kids, test (withChildren node kids) = test node.



(** A depth that the walk of [improveTabsHandling] does not exceed below
    [n]: an item puts a panel two levels under the widget, where it was at
    least one level under it before. *)
Definition tabsBound (n : Node) : nat :=
  2 * height n + 1 + (if matches Selectors.starlightTabs n then 1 else 0).

(** The code units of [s] that are not white space, in order. *)
Fixpoint nonWhiteSpace (s : jsstring) : jsstring :=
  match s with
  | EmptyString => EmptyString
  | String c rest =>
      if JsString.isWhiteSpace c then nonWhiteSpace rest
      else String c (nonWhiteSpace rest)
  end.

(** The item line 132 pushes for a tab and the panel as the plugin leaves
    it. *)
Definition flattenedItem (tab panel : Node) : Node :=
  Element "li" ∅ [Element "p" ∅ [Text (Spec.labelText tab)]; panel].

(** * Facts about strings *)

Section EqbFacts.
Import JsString.

Lemma eqb_eq (a b : jsstring) : eqb a b = true ↔ a = b.
Proof.
  revert b. induction a as [|c a IH]; intros [|d b]; simpl; try done.
  rewrite Bool.andb_true_iff, N.eqb_eq, IH. split.
  - by intros [-> ->].
  - by intros [= -> ->].
Qed.

Lemma eqb_refl (a : jsstring) : eqb a a = true.
Proof. by apply eqb_eq. Qed.

Lemma eqb_spec (a b : jsstring) : reflect (a = b) (eqb a b).
Proof.
  destruct (eqb a b) eqn:E; constructor.
  - by apply eqb_eq.
  - intros H. apply eqb_eq in H. congruence.
Qed.

End EqbFacts.

Section StringFacts.
Import JsString Spec.

Lemma runs_head c rest :
  ∃ run others, runs (String c rest) = String c run :: others.
Proof.
  simpl. destruct (runs rest) as [|[|d run] others]; eauto.
  destruct (Bool.eqb _ _); eauto.
Qed.

Lemma join_runs s : join (runs s) = s.
Proof.
  induction s as [|c rest IH]; [done|].
  simpl. destruct rest as [|d rest']; [done|].
  destruct (runs_head d rest') as (run & others & E).
  rewrite E in IH |- *. simpl in IH.
  destruct (Bool.eqb _ _); simpl; rewrite <- IH; reflexivity.
Qed.

Lemma runs_alternating s : alternating (runs s) = true.
Proof.
  induction s as [|c rest IH]; [done|].
  simpl. destruct rest as [|d rest']; [simpl; by destruct (isWhiteSpace c)|].
  destruct (runs_head d rest') as (run & others & E).
  rewrite E in IH |- *.
  destruct (Bool.eqb (isWhiteSpace c) (isWhiteSpace d)) eqn:K.
  - apply Bool.eqb_prop in K. simpl in IH |- *. rewrite K.
    rewrite Bool.eqb_reflx in IH |- *. simpl in IH |- *. exact IH.
  - simpl in IH |- *. rewrite !Bool.eqb_reflx in IH |- *. rewrite K. simpl in IH |- *.
    rewrite ?Bool.eqb_reflx. simpl. exact IH.
Qed.

Lemma collapseFrom_runs s :
  collapseFrom false s = collapseRuns s
  ∧ collapseFrom true s =
      match s with
      | String c _ =>
          if isWhiteSpace c then
            match collapseRuns s with String _ t => t | EmptyString => EmptyString end
          else collapseRuns s
      | EmptyString => EmptyString
      end.
Proof.
  induction s as [|c rest [IHf IHt]]; [done|].
  destruct rest as [|d rest'].
  { unfold collapseRuns. simpl. destruct (isWhiteSpace c) eqn:C; simpl; by rewrite ?C. }
  destruct (runs_head d rest') as (run & others & E).
  unfold collapseRuns in *.
  change (runs (String c (String d rest'))) with
    (match runs (String d rest') with
     | String d run :: others =>
         if Bool.eqb (isWhiteSpace c) (isWhiteSpace d)
         then String c (String d run) :: others
         else String c EmptyString :: String d run :: others
     | _ => [String c EmptyString]
     end).
  rewrite E in *.
  change (collapseFrom false (String c (String d rest'))) with
    (if isWhiteSpace c then String 0x0020 (collapseFrom true (String d rest'))
     else String c (collapseFrom false (String d rest'))).
  change (collapseFrom true (String c (String d rest'))) with
    (if isWhiteSpace c then collapseFrom true (String d rest')
     else String c (collapseFrom false (String d rest'))).
  rewrite IHf, IHt. clear IHf IHt E.
  destruct (isWhiteSpace c) eqn:C, (isWhiteSpace d) eqn:D; simpl; rewrite ?C, ?D; done.
Qed.

Lemma collapseWhitespace_runs s : collapseWhitespace s = collapseRuns s.
Proof. apply collapseFrom_runs. Qed.

End StringFacts.

Section TrimFacts.
Import JsString Spec.

Lemma trimStart_startsClean s : startsClean (trimStart s) = true.
Proof.
  induction s as [|c rest IH]; [done|].
  simpl. destruct (isWhiteSpace c) eqn:C; [done|]. simpl. by rewrite C.
Qed.

Lemma trimStart_id s : startsClean s = true → trimStart s = s.
Proof. destruct s as [|c rest]; [done|]. simpl. by destruct (isWhiteSpace c). Qed.

Lemma trimEnd_endsClean s : endsClean (trimEnd s) = true.
Proof.
  induction s as [|c rest IH]; [done|].
  simpl. destruct (trimEnd rest) as [|d kept] eqn:E.
  - destruct (isWhiteSpace c) eqn:C; [done|]. simpl. by rewrite C.
  - exact IH.
Qed.

Lemma trimEnd_id s : endsClean s = true → trimEnd s = s.
Proof.
  induction s as [|c rest IH]; [done|].
  intros H. destruct rest as [|d rest'].
  - simpl in *. by destruct (isWhiteSpace c).
  - change (endsClean (String c (String d rest'))) with (endsClean (String d rest')) in H.
    change (trimEnd (String c (String d rest'))) with
      (match trimEnd (String d rest') with
       | EmptyString => if isWhiteSpace c then EmptyString else String c EmptyString
       | kept => String c kept
       end).
    by rewrite (IH H).
Qed.

Lemma trimEnd_startsClean s : startsClean s = true → startsClean (trimEnd s) = true.
Proof.
  destruct s as [|c rest]; [done|]. simpl. intros C.
  destruct (trimEnd rest); [|done].
  destruct (isWhiteSpace c) eqn:K; [done|]. simpl. by rewrite K.
Qed.

Lemma trim_clean s : startsClean (trim s) = true ∧ endsClean (trim s) = true.
Proof.
  split; [apply trimEnd_startsClean, trimStart_startsClean | apply trimEnd_endsClean].
Qed.

Lemma clean_trim s : startsClean s = true → endsClean s = true → trim s = s.
Proof. intros A B. unfold trim. rewrite (trimStart_id _ A). by apply trimEnd_id. Qed.

Lemma collapseFrom_startsClean b s :
  startsClean s = true → startsClean (collapseFrom b s) = true.
Proof.
  destruct s as [|c rest]; [done|]. simpl. intros C.
  destruct (isWhiteSpace c) eqn:K; [done|]. simpl. by rewrite K.
Qed.

Lemma collapseFrom_endsClean s :
  endsClean s = true →
  ∀ b, endsClean (collapseFrom b s) = true
       ∧ (s ≠ EmptyString → collapseFrom b s ≠ EmptyString).
Proof.
  induction s as [|c rest IH]; [done|].
  intros H b. destruct rest as [|d rest'].
  - simpl in *. destruct (isWhiteSpace c) eqn:C; [done|]. simpl. by rewrite C.
  - change (endsClean (String c (String d rest'))) with (endsClean (String d rest')) in H.
    specialize (IH H).
    change (collapseFrom b (String c (String d rest'))) with
      (if isWhiteSpace c
       then if b then collapseFrom true (String d rest')
            else String 0x0020 (collapseFrom true (String d rest'))
       else String c (collapseFrom false (String d rest'))).
    destruct (IH true) as [T1 T2], (IH false) as [F1 F2].
    assert (N : String d rest' ≠ EmptyString) by done.
    specialize (T2 N). specialize (F2 N).
    destruct (isWhiteSpace c), b; split; try done.
    all: match goal with
         | |- endsClean (String _ ?t) = true => destruct t; [done | assumption]
         end.
Qed.

Lemma collapseFrom_noAdjacent s :
  ∀ b, noAdjacentWhiteSpace (collapseFrom b s) = true
       ∧ (b = true → noAdjacentWhiteSpace (String 0x0020 (collapseFrom b s)) = true).
Proof.
  induction s as [|c rest IH]; [done|].
  intros b. simpl collapseFrom.
  destruct (IH true) as [T1 T2], (IH false) as [F1 _].
  specialize (T2 eq_refl).
  destruct (isWhiteSpace c) eqn:C.
  - destruct b; split; try done.
  - assert (G : noAdjacentWhiteSpace (String c (collapseFrom false rest)) = true).
    { simpl. destruct (collapseFrom false rest) eqn:E; [done|]. rewrite C. simpl.
      exact F1. }
    split; [exact G | intros _].
    change (negb (isWhiteSpace 0x0020 && isWhiteSpace c)
            && noAdjacentWhiteSpace (String c (collapseFrom false rest)) = true).
    rewrite C, G. reflexivity.
Qed.

Lemma collapseFrom_onlySpaces s b : onlySpaces (collapseFrom b s) = true.
Proof.
  revert b. induction s as [|c rest IH]; [done|].
  intros b. simpl. destruct (isWhiteSpace c) eqn:C.
  - destruct b; [apply IH|]. simpl. apply IH.
  - simpl. rewrite C. simpl. apply IH.
Qed.

End TrimFacts.

Section EndsWithFacts.
Import JsString.

Lemma length_append (a b : jsstring) :
  length (a +:+ b) = (length a + length b)%nat.
Proof. induction a as [|c a IH]; simpl; [done|]. by rewrite IH. Qed.

Lemma drop_append (pre suffix : jsstring) :
  drop (length pre) (pre +:+ suffix) = suffix.
Proof. induction pre as [|c pre IH]; [by destruct suffix | exact IH]. Qed.

Lemma drop_split (n : nat) (s : jsstring) :
  (n ≤ length s)%nat → ∃ pre, s = pre +:+ drop n s.
Proof.
  revert s. induction n as [|n IH]; intros s H.
  - exists EmptyString. by destruct s.
  - destruct s as [|c s]; simpl in *; [lia|].
    destruct (IH s) as [pre E]; [lia|].
    exists (String c pre). simpl. by rewrite <- E.
Qed.

(** [endsWith] holds exactly of the texts that are some text followed by the
    suffix. *)
Lemma endsWith_spec (s suffix : jsstring) :
  endsWith s suffix = true ↔ ∃ pre, s = pre +:+ suffix.
Proof.
  unfold endsWith. split.
  - intros [L E]%andb_prop.
    apply Nat.leb_le in L. apply eqb_eq in E.
    destruct (drop_split (length s - length suffix) s) as [pre Sp]; [lia|].
    exists pre. by rewrite E in Sp.
  - intros [pre ->]. rewrite length_append.
    replace (length pre + length suffix - length suffix)%nat
      with (length pre) by lia.
    rewrite drop_append, eqb_refl, Bool.andb_true_r.
    apply Nat.leb_le. lia.
Qed.

End EndsWithFacts.

Example trim_sample :
  JsString.trim Scenario.spaced = "a " +:+ String 0x0009 (String 0x000A "  b").
Proof. reflexivity. Qed.

Example collapse_sample : JsString.collapseWhitespace (JsString.trim Scenario.spaced) = "a b".
Proof. reflexivity. Qed.

Example runs_sample :
  Spec.runs (JsString.trim Scenario.spaced)
  = ["a"; " " +:+ String 0x0009 (String 0x000A "  "); "b"].
Proof. reflexivity. Qed.

Example wide_sample :
  JsString.trim Scenario.spacedWide = "a" +:+ String 0x2003 (String 0x2028 "b")
  ∧ JsString.collapseWhitespace (JsString.trim Scenario.spacedWide) = "a b".
Proof. split; reflexivity. Qed.

(** The white-space code units, and some that are not: NEL, MONGOLIAN VOWEL
    SEPARATOR, ZERO WIDTH SPACE and WORD JOINER. *)
Example whitespace_code_units :
  forallb JsString.isWhiteSpace
    [0x0009; 0x000A; 0x000B; 0x000C; 0x000D; 0x0020; 0x00A0; 0x1680;
     0x2000; 0x2001; 0x2002; 0x2003; 0x2004; 0x2005; 0x2006; 0x2007; 0x2008;
     0x2009; 0x200A; 0x2028; 0x2029; 0x202F; 0x205F; 0x3000; 0xFEFF]%N = true
  ∧ existsb JsString.isWhiteSpace [0x0085; 0x180E; 0x200B; 0x2060]%N = false.
Proof. split; reflexivity. Qed.

Example endsWith_sample :
  JsString.endsWith "guides/intro.mdx" ".mdx" = true
  ∧ JsString.endsWith "guides/intro.md" ".mdx" = false
  ∧ JsString.endsWith "mdx" ".mdx" = false.
Proof. repeat split. Qed.

(** * Facts about trees and [remove] *)

Section TreeFacts.

Lemma descendants_children n : descendants n = flat_map subnodes (childrenOf n).
Proof.
  assert (G : ∀ l, (fix below (l : list Node) : list Node :=
                      match l with
                      | [] => []
                      | k :: rest => k :: descendants k ++ below rest
                      end) l = flat_map subnodes l).
  { induction l as [|k rest IH]; [done|]. simpl. by rewrite IH. }
  destruct n; simpl; try done; apply G.
Qed.

Lemma elem_of_descendants d n :
  d ∈ descendants n ↔ ∃ k, k ∈ childrenOf n ∧ d ∈ subnodes k.
Proof.
  rewrite descendants_children, list_elem_of_In, in_flat_map.
  setoid_rewrite list_elem_of_In. done.
Qed.

Lemma elem_of_subnodes d n : d ∈ subnodes n ↔ d = n ∨ d ∈ descendants n.
Proof. unfold subnodes. rewrite elem_of_cons. done. Qed.

Lemma descendants_trans a b c :
  a ∈ descendants b → b ∈ descendants c → a ∈ descendants c.
Proof.
  revert a b. induction c as [kids IH|tag props kids IH| | |] using Node_ind; intros a b Hab Hbc;
    try (by rewrite descendants_children in Hbc; simpl in Hbc; inversion Hbc).
  all: apply elem_of_descendants in Hbc as (k & Hk & Hb); simpl in Hk.
  all: apply elem_of_descendants; exists k; split; [done|].
  all: apply elem_of_subnodes; right.
  all: apply elem_of_subnodes in Hb as [-> | Hb]; [done|].
  all: rewrite Forall_forall in IH; by apply (IH k Hk a b).
Qed.

End TreeFacts.

Section RemoveFacts.
Variable test : Node -> bool.

Lemma preorder_unfold node :
  preorder test node =
    if test node then None
    else match childrenOf node, omap (preorder test) (childrenOf node) with
         | [], _ => Some node
         | _, [] => None
         | _, living => Some (withChildren node living)
         end.
Proof.
  destruct node as [kids|tag props kids|v|v|]; try reflexivity.
  all: destruct kids; reflexivity.
Qed.

Lemma preorder_Some node node' :
  preorder test node = Some node' →
  test node = false
  ∧ node' = withChildren node (omap (preorder test) (childrenOf node)).
Proof.
  rewrite preorder_unfold. destruct (test node) eqn:T; [done|].
  destruct (childrenOf node) as [|k rest] eqn:K.
  - intros [= <-]. split; [done|]. destruct node; simpl in *; by subst.
  - destruct (omap (preorder test) (k :: rest)); [done|].
    by intros [= <-].
Qed.

Lemma preorder_clean node node' :
  Shallow test →
  preorder test node = Some node' →
  Forall (fun d => test d = false) (subnodes node').
Proof.
  intros Sh. revert node'.
  induction node as [kids IH|tag props kids IH|v|v|] using Node_ind; intros node' H;
    apply preorder_Some in H as [T ->]; simpl.
  3-5: by repeat constructor.
  all: apply Forall_forall; intros d Hd.
  all: apply elem_of_subnodes in Hd as [-> | Hd];
    [ by (rewrite <- T; apply (Sh (Root kids)) || apply (Sh (Element tag props kids))) |].
  all: apply elem_of_descendants in Hd as (k' & Hk' & Hd); simpl in Hk'.
  all: apply list_elem_of_omap in Hk' as (k & Hk & Pk).
  all: rewrite Forall_forall in IH; specialize (IH k Hk k' Pk).
  all: rewrite Forall_forall in IH; by apply IH.
Qed.

Lemma remove_clean tree :
  Shallow test →
  Forall (fun d => test d = false) (descendants (remove test tree)).
Proof.
  intros Sh. apply Forall_forall. intros d Hd.
  apply elem_of_descendants in Hd as (k' & Hk' & Hd).
  assert (K : k' ∈ omap (preorder test) (childrenOf tree)).
  { unfold remove in Hk'. destruct tree; simpl in *; try done; inversion Hk'. }
  apply list_elem_of_omap in K as (k & Hk & Pk).
  pose proof (preorder_clean k k' Sh Pk) as F.
  rewrite Forall_forall in F. by apply F.
Qed.

Lemma preorder_origin node node' :
  preorder test node = Some node' →
  ∀ d', d' ∈ descendants node' →
    ∃ d, clearPath test node d ∧ preorder test d = Some d'.
Proof.
  revert node'.
  induction node as [kids IH|tag props kids IH|v|v|] using Node_ind; intros node' H d' Hd';
    apply preorder_Some in H as [T ->].
  all: apply elem_of_descendants in Hd' as (k' & Hk' & Hd'); simpl in Hk'.
  3-5: by inversion Hk'.
  all: apply list_elem_of_omap in Hk' as (k & Hk & Pk).
  all: pose proof (preorder_Some _ _ Pk) as [Tk _].
  all: apply elem_of_subnodes in Hd' as [-> | Hd'];
    [ exists k; split; [by apply clear_child|done] |].
  all: rewrite Forall_forall in IH.
  all: destruct (IH k Hk k' Pk d' Hd') as (d & Cd & Pd).
  all: exists d; split; [by eapply clear_below|done].
Qed.

Lemma remove_origin tree d' :
  d' ∈ descendants (remove test tree) →
  ∃ d, clearPath test tree d ∧ preorder test d = Some d'.
Proof.
  intros Hd'.
  apply elem_of_descendants in Hd' as (k' & Hk' & Hd').
  assert (K : k' ∈ omap (preorder test) (childrenOf tree)).
  { unfold remove in Hk'. destruct tree; simpl in *; try done; inversion Hk'. }
  apply list_elem_of_omap in K as (k & Hk & Pk).
  pose proof (preorder_Some _ _ Pk) as [Tk _].
  apply elem_of_subnodes in Hd' as [-> | Hd'].
  - exists k. split; [by apply clear_child|done].
  - destruct (preorder_origin k k' Pk d' Hd') as (d & Cd & Pd).
    exists d. split; [by eapply clear_below|done].
Qed.

End RemoveFacts.



Section MoreTreeFacts.

Lemma shallow_details : Shallow (matches Selectors.details).
Proof. by intros [] ?. Qed.

Lemma shallow_starlightAside : Shallow (matches Selectors.starlightAside).
Proof. by intros [] ?. Qed.

Lemma shallow_variant variant : Shallow (matches (variantSelector variant)).
Proof. by intros [] ?. Qed.

Lemma shallow_figcaption : Shallow (matches Selectors.figcaption).
Proof. by intros [] ?. Qed.

Lemma shallow_code : Shallow (matches Selectors.code).
Proof. by intros [] ?. Qed.

Lemma shallow_spanNotIndent : Shallow (matches Selectors.spanNotIndent).
Proof. by intros [] ?. Qed.

Lemma shallow_starlightTabs : Shallow (matches Selectors.starlightTabs).
Proof. by intros [] ?. Qed.

Lemma shallow_starlightFileTree : Shallow (matches Selectors.starlightFileTree).
Proof. by intros [] ?. Qed.

Lemma shallow_srOnly : Shallow (matches Selectors.srOnly).
Proof. by intros [] ?. Qed.

Lemma existsb_shallow {A} (test : A -> Node -> bool) (l : list A) :
  Forall (fun a => Shallow (test a)) l →
  Shallow (fun node => existsb (fun a => test a node) l).
Proof.
  intros F node kids. induction F as [|a rest Ha _ IH]; [done|].
  cbn [existsb]. by rewrite (Ha node kids), IH.
Qed.

(** The removal test looks at the node alone when the custom selectors do. *)
Lemma minifyTest_shallow minify :
  Forall (fun selector => Shallow (matches selector)) (customSelectors minify) →
  Shallow (minifyTest minify).
Proof.
  intros F node kids. unfold minifyTest.
  rewrite (shallow_starlightAside node kids).
  f_equal.
  - apply (existsb_shallow matches). unfold selectors.
    destruct (details minify); [constructor; [apply shallow_details | done] | done].
  - f_equal.
    apply (existsb_shallow
             (fun variant node => variantFlag minify variant
                                  && matches (variantSelector variant) node)).
    apply Forall_forall. intros variant _ n ks.
    by rewrite (shallow_variant variant n ks).
Qed.


Lemma height_child k n : k ∈ childrenOf n → (height k < height n)%nat.
Proof.
  assert (G : ∀ l : list Node, k ∈ l →
    (height k ≤ (fix tallest (l : list Node) : nat :=
                   match l with
                   | [] => 0
                   | k :: rest => Nat.max (height k) (tallest rest)
                   end) l)%nat).
  { induction l as [|x rest IH]; [by inversion 1|].
    intros [-> | Hk]%elem_of_cons; [lia|]. specialize (IH Hk). lia. }
  destruct n; simpl; try (by inversion 1); intros Hk; specialize (G _ Hk); lia.
Qed.

Lemma withChildren_childrenOf n : withChildren n (childrenOf n) = n.
Proof. by destruct n. Qed.

End MoreTreeFacts.

Section RemoveIdentity.
Variable test : Node -> bool.

Lemma omap_Some_id (l : list Node) :
  Forall (fun k => preorder test k = Some k) l → omap (preorder test) l = l.
Proof.
  induction 1 as [|k rest Hk _ IH]; [done|].
  cbn [omap list_omap]. rewrite Hk. f_equal. exact IH.
Qed.

Lemma preorder_id node :
  Forall (fun d => test d = false) (subnodes node) → preorder test node = Some node.
Proof.
  induction node as [kids IH|tag props kids IH|v|v|] using Node_ind; intros H.
  all: rewrite preorder_unfold.
  all: pose proof (Forall_inv H) as T; simpl in T.
  all: rewrite T; try done.
  all: cbn [childrenOf].
  all: rewrite omap_Some_id; [by destruct kids|].
  all: apply Forall_forall; intros k Hk.
  all: rewrite Forall_forall in IH; apply (IH k Hk).
  all: apply Forall_forall; intros d Hd.
  all: rewrite Forall_forall in H; apply H.
  all: apply elem_of_subnodes; right.
  all: apply elem_of_descendants; exists k; done.
Qed.

Lemma remove_id tree :
  Forall (fun d => test d = false) (descendants tree) → remove test tree = tree.
Proof.
  intros H. unfold remove. rewrite omap_Some_id; [apply withChildren_childrenOf|].
  apply Forall_forall. intros k Hk. apply preorder_id.
  apply Forall_forall. intros d Hd.
  rewrite Forall_forall in H. apply H.
  apply elem_of_descendants. eauto.
Qed.

End RemoveIdentity.

(** * The file-tree plugin *)

Section FileTreeWalk.
Let clean (d : Node) : Prop := matches Selectors.srOnly d = false.
Let walk (fuel : nat) : Node -> Node :=
  forEachSelected fuel Selectors.starlightFileTree fileTreeInstance.

Lemma map_fixed (f : Node -> Node) (l : list Node) :
  Forall (fun k => f k = k) l → map f l = l.
Proof. induction 1 as [|k rest Hk _ IH]; [done|]. simpl. by rewrite Hk, IH. Qed.

Lemma fileTree_walk_clean fuel node :
  Forall clean (descendants node) → walk fuel node = node.
Proof.
  revert node. induction fuel as [|fuel IH]; intros node H; [done|].
  unfold walk. simpl.
  assert (E : (if matches Selectors.starlightFileTree node
               then fileTreeInstance node else node) = node).
  { destruct (matches _ node); [|done]. by apply remove_id. }
  rewrite E. rewrite map_fixed; [apply withChildren_childrenOf|].
  apply Forall_forall. intros k Hk. apply IH.
  apply Forall_forall. intros d Hd.
  rewrite Forall_forall in H. apply H.
  apply elem_of_descendants. exists k. split; [done|].
  apply elem_of_subnodes. by right.
Qed.

Lemma fileTree_walk_ok fuel node :
  (height node < fuel)%nat →
  Forall (fun widget =>
            matches Selectors.starlightFileTree widget = true →
            Forall clean (descendants widget))
    (subnodes (walk fuel node)).
Proof.
  revert node. induction fuel as [|fuel IH]; intros node H; [lia|].
  unfold walk. simpl.
  destruct (matches Selectors.starlightFileTree node) eqn:M.
  - pose proof (remove_clean _ node shallow_srOnly) as C.
    fold (fileTreeInstance node) in C.
    rewrite map_fixed.
    2:{ apply Forall_forall. intros k Hk. apply fileTree_walk_clean.
        apply Forall_forall. intros d Hd.
        rewrite Forall_forall in C. apply C.
        apply elem_of_descendants. exists k. split; [done|].
        apply elem_of_subnodes. by right. }
    rewrite withChildren_childrenOf.
    apply Forall_forall. intros widget Hw _.
    apply Forall_forall. intros d Hd.
    rewrite Forall_forall in C. apply C.
    apply elem_of_subnodes in Hw as [-> | Hw]; [done|].
    by eapply descendants_trans.
  - apply Forall_forall. intros widget Hw Mw.
    apply elem_of_subnodes in Hw as [-> | Hw].
    { rewrite shallow_starlightFileTree in Mw. congruence. }
    apply elem_of_descendants in Hw as (k' & Hk' & Hw).
    assert (K : k' ∈ map (forEachSelected fuel Selectors.starlightFileTree fileTreeInstance)
                      (childrenOf node)).
    { destruct node; simpl in *; try done; inversion Hk'. }
    apply list_elem_of_In, in_map_iff in K as (k & <- & Hk).
    apply list_elem_of_In in Hk.
    pose proof (height_child _ _ Hk) as Hh.
    assert (Hf : (height k < fuel)%nat) by lia.
    pose proof (IH k Hf) as F. rewrite Forall_forall in F.
    by apply (F widget Hw).
Qed.

End FileTreeWalk.

(** C7.  Without the request to minify, [minifyLlmsTxt] gives the tree back
    unchanged, whatever the options. *)
Theorem minify_not_requested_is_identity (minify : MinifyOptions) (tree : Node) :
  minifyLlmsTxt minify false tree = tree.
Proof. reflexivity. Qed.

(** * Facts about [select] and assignment through it *)

Section SelectFacts.
Variable selector : Selector.

Lemma selectAll_unfold tree :
  selectAll selector tree =
    (if matches selector tree then [tree] else [])
    ++ flat_map (selectAll selector) (childrenOf tree).
Proof.
  assert (G : ∀ l, (fix below (l : list Node) : list Node :=
                      match l with
                      | [] => []
                      | k :: rest => selectAll selector k ++ below rest
                      end) l = flat_map (selectAll selector) l).
  { induction l as [|k rest IH]; [done|]. simpl. by rewrite IH. }
  destruct tree; try reflexivity; simpl; by rewrite G.
Qed.

Lemma updateFirst_unfold f tree :
  updateFirst selector f tree =
    if matches selector tree then Some (f tree)
    else match updateFirstAmong selector f (childrenOf tree) with
         | Some kids => Some (withChildren tree kids)
         | None => None
         end.
Proof.
  destruct tree; reflexivity.
Qed.

Lemma matches_Element node :
  matches selector node = true → ∃ tag props kids, node = Element tag props kids.
Proof. destruct node; try done. eauto. Qed.

Hypothesis shallow : Shallow (matches selector).

(** What [updateFirst] does, read off the list [selectAll] returns. *)
Lemma updateFirst_selectAll f tree :
  (selectAll selector tree = [] → updateFirst selector f tree = None)
  ∧ (∀ x rest, selectAll selector tree = x :: rest →
       ∃ tree', updateFirst selector f tree = Some tree'
                ∧ (matches selector (f x) = true →
                   ∃ rest', selectAll selector tree' = f x :: rest')).
Proof.
  induction tree as [kids IH|tag props kids IH|v|v|] using Node_ind.
  3-5: by split.
  all: rewrite selectAll_unfold, updateFirst_unfold; cbn [childrenOf].
  all: assert (L :
    (flat_map (selectAll selector) kids = [] → updateFirstAmong selector f kids = None)
    ∧ (∀ x rest, flat_map (selectAll selector) kids = x :: rest →
         ∃ kids', updateFirstAmong selector f kids = Some kids'
                  ∧ (matches selector (f x) = true →
                     ∃ rest', flat_map (selectAll selector) kids' = f x :: rest'))).
  1,3: (induction IH as [|k ks [Hk1 Hk2] _ IHks]; [by split|];
        cbn [flat_map updateFirstAmong];
        fold (updateFirstAmong selector f);
        destruct (selectAll selector k) as [|y ys] eqn:E;
        [ rewrite (Hk1 eq_refl); destruct IHks as [I1 I2]; split;
          [ intros Z; by rewrite (I1 Z)
          | intros x rest Z; destruct (I2 x rest Z) as (kids' & -> & R);
            exists (k :: kids'); split; [done|];
            intros M; destruct (R M) as (rest' & R');
            exists rest'; cbn [flat_map]; by rewrite E, R' ]
        | split; [done|];
          intros x rest [= <- <-];
          destruct (Hk2 y ys eq_refl) as (k' & -> & R);
          exists (k' :: ks); split; [done|];
          intros M; destruct (R M) as (rest' & R');
          exists (rest' ++ flat_map (selectAll selector) ks);
          cbn [flat_map]; by rewrite R' ]).
  - destruct L as [L1 L2]. split.
    + simpl. intros Z. by rewrite (L1 Z).
    + simpl. intros x rest Z. destruct (L2 x rest Z) as (kids' & -> & R).
      exists (Root kids'). split; [done|].
      intros M. destruct (R M) as (rest' & R').
      exists rest'. by rewrite selectAll_unfold.
  - destruct L as [L1 L2].
    destruct (matches selector (Element tag props kids)) eqn:M.
    + split; [done|]. intros x rest [= <- <-].
      eexists. split; [done|]. intros Mf.
      rewrite selectAll_unfold, Mf. simpl. eauto.
    + split.
      * simpl. intros Z. by rewrite (L1 Z).
      * simpl. intros x rest Z. destruct (L2 x rest Z) as (kids' & -> & R).
        exists (Element tag props kids'). split; [done|].
        intros Mf. destruct (R Mf) as (rest' & R').
        exists rest'. rewrite selectAll_unfold.
        rewrite <- (shallow (Element tag props kids) kids') in M.
        cbn [withChildren] in M. by rewrite M.
Qed.

Lemma selectAll_matches tree x :
  x ∈ selectAll selector tree → matches selector x = true.
Proof.
  induction tree as [ks IH|t p ks IH|v|v|] using Node_ind; rewrite selectAll_unfold;
    cbn [childrenOf]; try (by inversion 1).
  all: rewrite elem_of_app.
  all: intros [I | I].
  1: by inversion I.
  2: destruct (matches selector (Element t p ks)) eqn:Mt;
     [ apply elem_of_cons in I as [-> | I]; [done | by inversion I] | by inversion I ].
  all: apply list_elem_of_In, in_flat_map in I as (k & Hk & I).
  all: rewrite Forall_forall in IH.
  all: apply (IH k); by apply list_elem_of_In.
Qed.

Lemma select_matches tree x :
  select selector tree = Some x → matches selector x = true.
Proof.
  unfold select. intros S. apply (selectAll_matches tree).
  destruct (selectAll selector tree); [done|].
  injection S as ->. apply elem_of_cons. by left.
Qed.

Lemma select_updateSelected f tree x :
  select selector tree = Some x →
  matches selector (f x) = true →
  select selector (updateSelected selector f tree) = Some (f x).
Proof.
  unfold select, updateSelected. intros S M.
  destruct (selectAll selector tree) as [|y rest] eqn:E; [done|].
  simpl in S. injection S as ->.
  destruct (updateFirst_selectAll f tree) as [_ U].
  destruct (U x rest E) as (tree' & -> & R).
  destruct (R M) as (rest' & R'). simpl. by rewrite R'.
Qed.

Lemma updateSelected_none f tree :
  select selector tree = None → updateSelected selector f tree = tree.
Proof.
  unfold select, updateSelected. intros S.
  destruct (selectAll selector tree) as [|y rest] eqn:E; [|done].
  destruct (updateFirst_selectAll f tree) as [U _].
  by rewrite (U E).
Qed.

End SelectFacts.



(** * The Expressive Code plugin *)

Section ExpressiveCodeFacts.

Lemma classList_pushClass token props :
  classList (pushClass token props) = classList props ++ [token].
Proof. unfold pushClass, classList at 1. by rewrite lookup_insert_eq. Qed.

Lemma classList_tokens name props :
  name ∈ classList props → props !! "className" = Some (PTokens (classList props)).
Proof.
  unfold classList. destruct (props !! "className") as [[]|]; try done; by inversion 1.
Qed.

Lemma diffLine_ec_line tag props kids :
  matches Selectors.diffLine (Element tag props kids) = true →
  "ec-line" ∈ classList props.
Proof.
  unfold matches, Selectors.diffLine. cbn [existsb forallb matchesSimple].
  destruct (bool_decide ("ec-line" ∈ classList props)) eqn:E.
  - by apply bool_decide_eq_true in E.
  - rewrite !Bool.andb_false_l, !Bool.andb_false_r. done.
Qed.

Lemma markDiffLine_eq tag props kids :
  matches Selectors.diffLine (Element tag props kids) = true →
  markDiffLine (Element tag props kids) =
    updateSelected Selectors.spanNotIndent
      (prefixFirstChild (if bool_decide ("ins" ∈ classList props) then "+" else "-"))
      (Element tag props kids).
Proof.
  intros M. unfold markDiffLine.
  by rewrite (classList_tokens _ _ (diffLine_ec_line _ _ _ M)).
Qed.

Lemma prefixFirstChild_matches selector marker span :
  Shallow (matches selector) →
  matches selector (prefixFirstChild marker span) = matches selector span.
Proof.
  intros Sh. unfold prefixFirstChild.
  destruct (childrenOf span) as [|[] ?]; try reflexivity. apply Sh.
Qed.

Lemma filter_nil_Forall (p : Node -> bool) (l : list Node) :
  List.filter p l = [] ↔ Forall (fun x => p x = false) l.
Proof.
  induction l as [|x rest IH]; [done|]. simpl.
  destruct (p x) eqn:E.
  - split; [done|]. intros F. apply Forall_inv in F. congruence.
  - rewrite IH. split; [by constructor | by inversion 1].
Qed.

Lemma expressiveCodeInstance_unlocated instance :
  truthy (dataLanguage (select Selectors.pre (removeTerminalLabel instance))) = false
  ∨ select Selectors.code (removeTerminalLabel instance) = None →
  expressiveCodeInstance instance = removeTerminalLabel instance.
Proof.
  unfold expressiveCodeInstance.
  destruct (dataLanguage (select Selectors.pre (removeTerminalLabel instance)))
    as [language|]; [|done].
  destruct (select Selectors.code (removeTerminalLabel instance)); [|done].
  intros [T | ?]; [by rewrite T | done].
Qed.

Lemma isDiff_true language : isDiff language = true → language = PStr "diff".
Proof.
  destruct language as [s| | |]; try done. simpl. by intros ->%eqb_eq.
Qed.

Lemma expressiveCodeInstance_located instance preTag preProps preKids language code :
  select Selectors.pre (removeTerminalLabel instance) = Some (Element preTag preProps preKids) →
  preProps !! "dataLanguage" = Some language →
  truthy (Some language) = true →
  select Selectors.code (removeTerminalLabel instance) = Some code →
  expressiveCodeInstance instance =
    updateSelected Selectors.code (setCodeLanguage language) (removeTerminalLabel instance).
Proof.
  intros P L T C. unfold expressiveCodeInstance. rewrite P, C.
  cbn [dataLanguage]. by rewrite L, T.
Qed.

Lemma expressiveCodeInstance_code instance preTag preProps preKids language tag props kids :
  select Selectors.pre (removeTerminalLabel instance) = Some (Element preTag preProps preKids) →
  preProps !! "dataLanguage" = Some language →
  truthy (Some language) = true →
  select Selectors.code (removeTerminalLabel instance) = Some (Element tag props kids) →
  select Selectors.code (expressiveCodeInstance instance) =
    Some (setCodeLanguage language (Element tag props kids)).
Proof.
  intros P L T C.
  rewrite (expressiveCodeInstance_located _ _ _ _ _ _ P L T C).
  apply (select_updateSelected _ shallow_code); [done|].
  pose proof (select_matches _ _ _ C) as M.
  unfold setCodeLanguage.
  destruct (if isDiff language then [] else List.filter _ kids); exact M.
Qed.

End ExpressiveCodeFacts.

(** * The tabs plugin *)

Section TabsFacts.

Lemma tabLabel_labelText tab : tabLabel tab = Spec.labelText tab.
Proof.
  unfold tabLabel, Spec.labelText. f_equal.
  induction (childrenOf tab) as [|child rest IH]; [done|].
  destruct child as [| |value| |]; simpl; try exact IH.
  destruct (JsString.eqb (JsString.trim value) ""); simpl; by rewrite IH.
Qed.

End TabsFacts.

Section ChildrenFacts.

Lemma childrenOf_withChildren node kids :
  childrenOf node ≠ [] → childrenOf (withChildren node kids) = kids.
Proof. by destruct node. Qed.

Lemma elem_of_childrenOf_withChildren k node kids :
  k ∈ childrenOf (withChildren node kids) → k ∈ kids.
Proof. destruct node; simpl; try done; by inversion 1. Qed.

End ChildrenFacts.

(** * The depth of the walks

    [forEachSelected] gives the same tree for every amount of fuel from a
    bound on; the plugins take at least that much. *)

Section Fuel.
Variable selector : Selector.
Variable handler : Node -> Node.
Variable bound : Node -> nat.
Hypothesis bound_selected : ∀ n, matches selector n = true → (1 ≤ bound n)%nat.
Hypothesis bound_children :
  ∀ n k, k ∈ childrenOf (if matches selector n then handler n else n) →
         (bound k < bound n)%nat.

Lemma forEachSelected_leaf fuel n :
  bound n = 0 → forEachSelected fuel selector handler n = n.
Proof.
  intros Z. destruct fuel as [|fuel]; [done|]. simpl.
  destruct (matches selector n) eqn:M.
  { specialize (bound_selected n M). lia. }
  destruct (childrenOf n) as [|k rest] eqn:K.
  - simpl. rewrite <- K. apply withChildren_childrenOf.
  - assert (bound k < bound n)%nat; [|lia].
    apply bound_children. rewrite M, K. apply elem_of_cons. by left.
Qed.

Lemma forEachSelected_fuel f1 f2 n :
  (bound n ≤ f1)%nat → (bound n ≤ f2)%nat →
  forEachSelected f1 selector handler n = forEachSelected f2 selector handler n.
Proof.
  revert f2 n. induction f1 as [|f1 IH]; intros f2 n H1 H2.
  { rewrite !forEachSelected_leaf; [done|lia|lia]. }
  destruct f2 as [|f2].
  { rewrite !forEachSelected_leaf; [done|lia|lia]. }
  simpl. f_equal.
  apply map_ext_in. intros k Hk. apply list_elem_of_In in Hk.
  specialize (bound_children n k Hk).
  apply IH; lia.
Qed.

End Fuel.

Section HeightFacts.

Lemma height_unfold n :
  height n = match n with
             | Root kids | Element _ _ kids => S (max_list_with height kids)
             | _ => 0
             end.
Proof.
  assert (G : ∀ l, (fix tallest (l : list Node) : nat :=
                      match l with
                      | [] => 0
                      | k :: rest => Nat.max (height k) (tallest rest)
                      end) l = max_list_with height l).
  { induction l as [|k rest IH]; [done|]. simpl. by rewrite IH. }
  destruct n; simpl; try done; by rewrite G.
Qed.

Lemma height_withChildren n kids :
  (max_list_with height kids ≤ max_list_with height (childrenOf n))%nat →
  (height (withChildren n kids) ≤ height n)%nat.
Proof.
  destruct n; cbn [withChildren childrenOf]; try done;
    intros; rewrite !height_unfold; lia.
Qed.

Lemma tallest_spliceFirst p (l : list Node) :
  (max_list_with height (spliceFirst p l) ≤ max_list_with height l)%nat.
Proof.
  induction l as [|x rest IH]; [done|]. cbn [spliceFirst].
  destruct (p x); cbn [max_list_with]; lia.
Qed.

Lemma tallest_map (g : Node -> Node) (l : list Node) :
  (∀ x, (height (g x) ≤ height x)%nat) →
  (max_list_with height (map g l) ≤ max_list_with height l)%nat.
Proof.
  intros G. induction l as [|x rest IH]; [done|]. cbn [map].
  cbn [max_list_with]. specialize (G x). lia.
Qed.

Lemma height_updateFirst selector f :
  (∀ x, (height (f x) ≤ height x)%nat) →
  ∀ tree tree', updateFirst selector f tree = Some tree' →
                (height tree' ≤ height tree)%nat.
Proof.
  intros F tree.
  induction tree as [kids IH|tag props kids IH|v|v|] using Node_ind; intros tree';
    rewrite updateFirst_unfold; try done.
  all: assert (L : ∀ kids', updateFirstAmong selector f kids = Some kids' →
                     (max_list_with height kids' ≤ max_list_with height kids)%nat).
  1,3: (induction IH as [|k ks Hk _ IHks]; [done|];
        intros kids'; cbn [updateFirstAmong]; fold (updateFirstAmong selector f);
        destruct (updateFirst selector f k) as [k'|] eqn:E;
        [ intros [= <-]; specialize (Hk k' eq_refl);
          cbn [max_list_with]; lia
        | destruct (updateFirstAmong selector f ks) as [ks'|]; [|done];
          intros [= <-]; specialize (IHks ks' eq_refl);
          cbn [max_list_with]; lia ]).
  - cbn [matches childrenOf].
    destruct (updateFirstAmong selector f kids) as [kids'|]; [|done].
    intros [= <-]. cbn [withChildren]. rewrite !height_unfold.
    specialize (L kids' eq_refl). lia.
  - destruct (matches selector (Element tag props kids)); [intros [= <-]; apply F|].
    cbn [childrenOf]. destruct (updateFirstAmong selector f kids) as [kids'|]; [|done].
    intros [= <-]. cbn [withChildren]. rewrite !height_unfold.
    specialize (L kids' eq_refl). lia.
Qed.

Lemma height_updateSelected selector f tree :
  (∀ x, (height (f x) ≤ height x)%nat) →
  (height (updateSelected selector f tree) ≤ height tree)%nat.
Proof.
  intros F. unfold updateSelected.
  destruct (updateFirst selector f tree) as [tree'|] eqn:E; [|done].
  by eapply height_updateFirst.
Qed.

Lemma height_prefixFirstChild marker span :
  (height (prefixFirstChild marker span) ≤ height span)%nat.
Proof.
  unfold prefixFirstChild. destruct (childrenOf span) as [|[] rest] eqn:K; try done.
  apply height_withChildren. rewrite K. cbn [max_list_with].
  rewrite !height_unfold. lia.
Qed.

Lemma height_markDiffLine line : (height (markDiffLine line) ≤ height line)%nat.
Proof.
  unfold markDiffLine. destruct line as [|tag props kids| | |]; try done.
  destruct (props !! "className") as [[]|]; try done.
  apply height_updateSelected, height_prefixFirstChild.
Qed.

Lemma height_setCodeLanguage language code :
  (height (setCodeLanguage language code) ≤ height code)%nat.
Proof.
  unfold setCodeLanguage. destruct code as [|tag props kids| | |]; try done.
  destruct (if isDiff language then [] else List.filter _ kids).
  - rewrite !height_unfold. lia.
  - rewrite !height_unfold.
    pose proof (tallest_map
      (fun child => if matches Selectors.diffLine child then markDiffLine child else child)
      kids) as T.
    assert (∀ x, (height (if matches Selectors.diffLine x then markDiffLine x else x)
                  ≤ height x)%nat) as G.
    { intros x. destruct (matches _ x); [apply height_markDiffLine|done]. }
    specialize (T G). lia.
Qed.

Lemma height_removeTerminalLabel instance :
  (height (removeTerminalLabel instance) ≤ height instance)%nat.
Proof.
  apply height_updateSelected. intros x.
  apply height_withChildren, tallest_spliceFirst.
Qed.

Lemma height_expressiveCodeInstance instance :
  (height (expressiveCodeInstance instance) ≤ height instance)%nat.
Proof.
  unfold expressiveCodeInstance.
  pose proof (height_removeTerminalLabel instance) as R.
  destruct (dataLanguage _) as [language|]; [|done].
  destruct (select Selectors.code _); [|done].
  destruct (truthy _); [|done].
  pose proof (height_updateSelected Selectors.code (setCodeLanguage language)
                (removeTerminalLabel instance) (height_setCodeLanguage language)).
  lia.
Qed.

(** More fuel than [improveExpressiveCodeHandling] takes changes nothing: the
    walk has reached every selected node. *)
Lemma improveExpressiveCodeHandling_fuel fuel tree :
  (S (height tree) ≤ fuel)%nat →
  forEachSelected fuel Selectors.expressiveCode expressiveCodeInstance tree
  = improveExpressiveCodeHandling tree.
Proof.
  intros H. unfold improveExpressiveCodeHandling.
  apply (forEachSelected_fuel _ _ (fun n => S (height n))); [lia| |done|done].
  intros n k Hk. apply height_child in Hk.
  destruct (matches _ n); [|lia].
  pose proof (height_expressiveCodeInstance n). lia.
Qed.

(** One step of the walk: the handler on the node when it is a code sample,
    then the plugin on each child of what the handler left. *)
Lemma improveExpressiveCodeHandling_unfold node :
  improveExpressiveCodeHandling node
  = let node' := if matches Selectors.expressiveCode node
                 then expressiveCodeInstance node else node in
    withChildren node' (map improveExpressiveCodeHandling (childrenOf node')).
Proof.
  unfold improveExpressiveCodeHandling at 1. cbn [forEachSelected]. cbv zeta. f_equal.
  apply map_ext_in. intros k Hk. apply list_elem_of_In in Hk.
  apply improveExpressiveCodeHandling_fuel.
  apply height_child in Hk.
  destruct (matches Selectors.expressiveCode node); [|lia].
  pose proof (height_expressiveCodeInstance node). lia.
Qed.

Lemma height_remove test tree : (height (remove test tree) ≤ height tree)%nat.
Proof.
  assert (P : ∀ node node', preorder test node = Some node' →
                            (height node' ≤ height node)%nat).
  { induction node as [kids IH|tag props kids IH|v|v|] using Node_ind; intros node' H;
      apply preorder_Some in H as [_ ->]; try done.
    all: cbn [childrenOf withChildren]; rewrite !height_unfold.
    all: assert ((max_list_with height (omap (preorder test) kids)
                  ≤ max_list_with height kids)%nat); [|lia].
    all: induction IH as [|k ks Hk _ IHks]; [done|].
    all: cbn [omap list_omap]; fold (omap (preorder test) ks).
    all: destruct (preorder test k) as [k'|]; simpl; [specialize (Hk k' eq_refl)|]; lia. }
  unfold remove. apply height_withChildren.
  induction (childrenOf tree) as [|k ks IH]; [done|].
  cbn [omap list_omap]. fold (omap (preorder test) ks).
  destruct (preorder test k) as [k'|] eqn:E; simpl; [specialize (P k k' E)|]; lia.
Qed.

Lemma improveFileTreeHandling_fuel fuel tree :
  (S (height tree) ≤ fuel)%nat →
  forEachSelected fuel Selectors.starlightFileTree fileTreeInstance tree
  = improveFileTreeHandling tree.
Proof.
  intros H. unfold improveFileTreeHandling.
  apply (forEachSelected_fuel _ _ (fun n => S (height n))); [lia| |done|done].
  intros n k Hk. apply height_child in Hk.
  destruct (matches _ n); [|lia].
  pose proof (height_remove (matches Selectors.srOnly) n).
  unfold fileTreeInstance in Hk. lia.
Qed.

End HeightFacts.

Section FuelM.
Variable selector : Selector.
Variable handler : Node -> option Node.
Variable bound : Node -> nat.
Hypothesis bound_selected : ∀ n, matches selector n = true → (1 ≤ bound n)%nat.
Hypothesis bound_children :
  ∀ n n' k, (if matches selector n then handler n else Some n) = Some n' →
            k ∈ childrenOf n' → (bound k < bound n)%nat.

Lemma forEachSelectedM_leaf fuel n :
  bound n = 0 → forEachSelectedM fuel selector handler n = Some n.
Proof.
  intros Z. destruct fuel as [|fuel]; [done|]. cbn [forEachSelectedM].
  destruct (matches selector n) eqn:M.
  { specialize (bound_selected n M). lia. }
  cbn [mbind option_bind].
  destruct (childrenOf n) as [|k rest] eqn:K.
  - cbn. rewrite <- K. by rewrite withChildren_childrenOf.
  - assert (bound k < bound n)%nat; [|lia].
    apply (bound_children n n); [by rewrite M|]. rewrite K. apply elem_of_cons. by left.
Qed.

Lemma forEachSelectedM_fuel f1 f2 n :
  (bound n ≤ f1)%nat → (bound n ≤ f2)%nat →
  forEachSelectedM f1 selector handler n = forEachSelectedM f2 selector handler n.
Proof.
  revert f2 n. induction f1 as [|f1 IH]; intros f2 n H1 H2.
  { rewrite !forEachSelectedM_leaf; [done|lia|lia]. }
  destruct f2 as [|f2].
  { rewrite !forEachSelectedM_leaf; [done|lia|lia]. }
  cbn [forEachSelectedM].
  destruct (if matches selector n then handler n else Some n) as [n'|] eqn:E; [|done].
  cbn [mbind option_bind].
  rewrite (Forall_mapM_ext _ (forEachSelectedM f2 selector handler)); [done|].
  apply Forall_forall. intros k Hk.
  specialize (bound_children n n' k E Hk).
  apply IH; lia.
Qed.

Lemma forEachSelectedM_none fuel node :
  Forall (fun d => matches selector d = false) (subnodes node) →
  forEachSelectedM fuel selector handler node = Some node.
Proof.
  revert node. induction fuel as [|fuel IH]; intros node F; [done|].
  cbn [forEachSelectedM]. rewrite (Forall_inv F). cbn [mbind option_bind].
  rewrite (mapM_Some_2 _ _ (childrenOf node)).
  - cbn. by rewrite withChildren_childrenOf.
  - apply Forall_Forall2_diag, Forall_forall. intros k Hk. apply IH.
    apply Forall_forall. intros d Hd.
    rewrite Forall_forall in F. apply F.
    apply elem_of_subnodes. right.
    apply elem_of_descendants. eauto.
Qed.

End FuelM.

Section TabsFuel.

Lemma height_subnode d n : d ∈ subnodes n → (height d ≤ height n)%nat.
Proof.
  revert d. induction n as [kids IH|tag props kids IH|v|v|] using Node_ind; intros d Hd;
    apply elem_of_subnodes in Hd as [-> | Hd]; try done.
  3-5: by inversion Hd.
  all: apply elem_of_descendants in Hd as (k & Hk & Hd).
  all: pose proof (height_child _ _ Hk).
  all: rewrite Forall_forall in IH; specialize (IH k Hk d Hd); lia.
Qed.

Lemma selectAll_subnodes selector tree x :
  x ∈ selectAll selector tree → x ∈ subnodes tree.
Proof.
  revert x.
  induction tree as [kids IH|tag props kids IH|v|v|] using Node_ind; intros x;
    rewrite selectAll_unfold; cbn [childrenOf]; try (by inversion 1).
  all: rewrite elem_of_app.
  all: intros [I | I].
  1: by inversion I.
  2: destruct (matches selector (Element tag props kids));
     [ apply elem_of_cons in I as [-> | I];
       [apply elem_of_subnodes; by left | by inversion I]
     | by inversion I ].
  all: apply list_elem_of_In, in_flat_map in I as (k & Hk & I).
  all: apply list_elem_of_In in Hk, I.
  all: rewrite Forall_forall in IH; specialize (IH k Hk x I).
  all: apply elem_of_subnodes; right; apply elem_of_descendants; eauto.
Qed.

Lemma selected_below_height selector n x :
  x ∈ flat_map (selectAll selector) (childrenOf n) →
  (1 ≤ height x ∧ height x < height n)%nat.
Proof.
  intros I. apply list_elem_of_In, in_flat_map in I as (k & Hk & I).
  apply list_elem_of_In in Hk, I.
  pose proof (selectAll_matches _ _ _ I) as M.
  apply matches_Element in M as (t & p & ks & ->).
  pose proof (height_subnode _ _ (selectAll_subnodes _ _ _ I)).
  pose proof (height_child _ _ Hk).
  rewrite (height_unfold (Element t p ks)) in *. lia.
Qed.

Lemma tab_not_tabpanel n :
  matches Selectors.tab n = true → matches Selectors.tabpanel n = false.
Proof.
  destruct n as [|tag props kids| | |]; try done.
  unfold matches, Selectors.tab, Selectors.tabpanel.
  cbn [existsb forallb matchesSimple].
  destruct (attributeValue "role" "role" props) as [actual|]; [|done].
  destruct (eqb_spec "tab" actual) as [<-|]; [done|].
  by rewrite Bool.andb_false_l.
Qed.

(** What the loop body makes of a widget that is not its own panel. *)
Lemma tabsInstance_items tag props kids :
  matches Selectors.tabpanel (Element tag props kids) = false →
  tabsInstance (Element tag props kids)
  = Some (Element "ul" ∅
            (zip_with listItem
               ((if matches Selectors.tab (Element tag props kids)
                 then [emptiedWidget] else [])
                ++ flat_map (selectAll Selectors.tab) kids)
               (flat_map (selectAll Selectors.tabpanel) kids))).
Proof. intros M. unfold tabsInstance. by rewrite M. Qed.

Lemma tabsInstance_children widget node' k :
  tabsInstance widget = Some node' → k ∈ childrenOf node' →
  matches Selectors.starlightTabs widget = true →
  ∃ tab panel,
    k = listItem tab panel
    ∧ panel ∈ flat_map (selectAll Selectors.tabpanel) (childrenOf widget).
Proof.
  intros T Hk M.
  apply matches_Element in M as (tag & props & kids & ->).
  destruct (matches Selectors.tabpanel (Element tag props kids)) eqn:P.
  - unfold tabsInstance in T. rewrite P in T.
    destruct (_ ++ _) in T; [|done]. injection T as <-. by inversion Hk.
  - rewrite (tabsInstance_items _ _ _ P) in T. injection T as <-.
    cbn [childrenOf] in Hk.
    apply elem_of_zip_with in Hk as (tab & panel & -> & _ & Hp). eauto.
Qed.

Lemma tabsInstance_unmatched widget node' :
  tabsInstance widget = Some node' →
  matches Selectors.starlightTabs widget = true →
  matches Selectors.starlightTabs node' = false.
Proof.
  intros T M.
  apply matches_Element in M as (tag & props & kids & ->).
  unfold tabsInstance in T.
  destruct (matches Selectors.tabpanel _).
  - destruct (_ ++ _) in T; [|done]. by injection T as <-.
  - by injection T as <-.
Qed.

Lemma tabsBound_children n n' k :
  (if matches Selectors.starlightTabs n then tabsInstance n else Some n) = Some n' →
  k ∈ childrenOf n' → (tabsBound k < tabsBound n)%nat.
Proof.
  unfold tabsBound. destruct (matches Selectors.starlightTabs n) eqn:M.
  - intros T Hk.
    destruct (tabsInstance_children _ _ _ T Hk M) as (tab & panel & -> & Hp).
    change (matches Selectors.starlightTabs (listItem tab panel)) with false.
    change (height (listItem tab panel))
      with (S (Nat.max 1 (Nat.max (height panel) 0))).
    apply selected_below_height in Hp. cbv iota. lia.
  - intros [= <-] Hk. apply height_child in Hk.
    destruct (matches Selectors.starlightTabs k); lia.
Qed.

(** More fuel than [improveTabsHandling] takes changes nothing. *)
Lemma improveTabsHandling_fuel fuel tree :
  (tabsBound tree ≤ fuel)%nat →
  forEachSelectedM fuel Selectors.starlightTabs tabsInstance tree
  = improveTabsHandling tree.
Proof.
  intros H. unfold improveTabsHandling.
  apply (forEachSelectedM_fuel _ _ tabsBound).
  - intros n _. unfold tabsBound. lia.
  - apply tabsBound_children.
  - done.
  - unfold tabsBound. destruct (matches _ tree); lia.
Qed.

(** One step of the walk: the handler on the node when it is a widget, then
    the plugin on each child of what the handler left. *)
Lemma improveTabsHandling_unfold node :
  improveTabsHandling node
  = node' ← (if matches Selectors.starlightTabs node then tabsInstance node
             else Some node);
    withChildren node' <$> mapM improveTabsHandling (childrenOf node').
Proof.
  rewrite <- (improveTabsHandling_fuel (S (tabsBound node))) by lia.
  cbn [forEachSelectedM].
  destruct (if matches Selectors.starlightTabs node then tabsInstance node else Some node)
    as [node'|] eqn:E; [|done].
  cbn [mbind option_bind].
  rewrite (Forall_mapM_ext _ improveTabsHandling); [by destruct (mapM _ _)|].
  apply Forall_forall. intros k Hk. apply improveTabsHandling_fuel.
  pose proof (tabsBound_children _ _ _ E Hk) as B. lia.
Qed.

Lemma improveTabsHandling_leaf node :
  matches Selectors.starlightTabs node = false → childrenOf node = [] →
  improveTabsHandling node = Some node.
Proof.
  intros M K. rewrite improveTabsHandling_unfold, M. cbn [mbind option_bind].
  rewrite K. cbn. rewrite <- K. by rewrite withChildren_childrenOf.
Qed.

Lemma improveTabsHandling_listItem tab panel :
  improveTabsHandling (listItem tab panel)
  = flattenedItem tab <$> improveTabsHandling panel.
Proof.
  rewrite improveTabsHandling_unfold.
  change (matches Selectors.starlightTabs (listItem tab panel)) with false.
  cbn [mbind option_bind listItem childrenOf mapM].
  rewrite (improveTabsHandling_unfold (Element "p" _ _)).
  change (matches Selectors.starlightTabs (Element "p" ∅ [Text (tabLabel tab)]))
    with false.
  cbn [mbind option_bind childrenOf mapM].
  rewrite (improveTabsHandling_leaf (Text (tabLabel tab)) eq_refl eq_refl).
  unfold flattenedItem. rewrite <- tabLabel_labelText.
  by destruct (improveTabsHandling panel).
Qed.

Lemma improveTabsHandling_items (tabs panels : list Node) :
  mapM improveTabsHandling (zip_with listItem tabs panels)
  = mapM (fun pair => flattenedItem pair.1 <$> improveTabsHandling pair.2)
      (zip tabs panels).
Proof.
  revert panels. induction tabs as [|tab tabs IH]; intros [|panel panels]; try done.
  cbn [zip_with mapM]. rewrite improveTabsHandling_listItem.
  fold (mapM improveTabsHandling).
  fold (mapM (fun pair : Node * Node => flattenedItem pair.1 <$> improveTabsHandling pair.2)).
  fold (zip tabs panels). by rewrite IH.
Qed.

Lemma tabs_walk_leaves_none fuel node out :
  (tabsBound node ≤ fuel)%nat →
  forEachSelectedM fuel Selectors.starlightTabs tabsInstance node = Some out →
  Forall (fun d => matches Selectors.starlightTabs d = false) (subnodes out).
Proof.
  revert node out. induction fuel as [|fuel IH]; intros node out H.
  { unfold tabsBound in H. lia. }
  cbn [forEachSelectedM].
  destruct (if matches Selectors.starlightTabs node then tabsInstance node else Some node)
    as [node'|] eqn:E; [|done].
  cbn [mbind option_bind].
  destruct (mapM _ (childrenOf node')) as [kids'|] eqn:K; [|done].
  intros [= <-].
  assert (M : matches Selectors.starlightTabs node' = false).
  { destruct (matches Selectors.starlightTabs node) eqn:Mn.
    - by eapply tabsInstance_unmatched.
    - by injection E as <-. }
  apply Forall_forall. intros d Hd.
  apply elem_of_subnodes in Hd as [-> | Hd].
  { by rewrite shallow_starlightTabs. }
  apply elem_of_descendants in Hd as (k' & Hk' & Hd).
  apply elem_of_childrenOf_withChildren in Hk'.
  apply mapM_Some_1 in K.
  destruct (proj1 (list_elem_of_lookup _ _) Hk') as [i Hi].
  destruct (Forall2_lookup_r _ _ _ _ _ K Hi) as (k & Hki & Wk).
  assert (Hk : k ∈ childrenOf node') by (by eapply list_elem_of_lookup_2).
  pose proof (tabsBound_children _ _ _ E Hk) as B.
  assert (Hf : (tabsBound k ≤ fuel)%nat) by lia.
  pose proof (IH k k' Hf Wk) as F. rewrite Forall_forall in F. by apply F.
Qed.

End TabsFuel.

(** C1, as the code has it.  When [pre] declares the language [diff], the
    [code] element gets the class token [language-diff] after the tokens it
    had, and its children, the lines, stay as they are: no [+] or [-] is put
    in front of any text. *)
Theorem diff_language_attaches_class_only
    (instance : Node) (preTag : jsstring) (preProps : Properties) (preKids : list Node)
    (tag : jsstring) (props : Properties) (kids : list Node) :
  let widget := removeTerminalLabel instance in
  select Selectors.pre widget = Some (Element preTag preProps preKids) →
  preProps !! "dataLanguage" = Some (PStr "diff") →
  select Selectors.code widget = Some (Element tag props kids) →
  select Selectors.code (expressiveCodeInstance instance)
    = Some (Element tag (pushClass "language-diff" props) kids)
  ∧ classList (pushClass "language-diff" props) = classList props ++ ["language-diff"].
Proof.
  intros widget P L C. split; [|apply classList_pushClass].
  by rewrite (expressiveCodeInstance_code _ _ _ _ _ _ _ _ P L eq_refl C).
Qed.

Lemma diff_language_attaches_class_only_witness :
  select Selectors.code
    (expressiveCodeInstance
       (Scenario.codeSample (Scenario.language "diff") ∅ Scenario.fooBar))
  = Some (Element "code" (pushClass "language-diff" ∅) Scenario.fooBar)
  ∧ classList (pushClass "language-diff" ∅) = ["language-diff"].
Proof.
  exact (diff_language_attaches_class_only
           (Scenario.codeSample (Scenario.language "diff") ∅ Scenario.fooBar)
           "pre" (Scenario.language "diff") [Element "code" ∅ Scenario.fooBar]
           "code" ∅ Scenario.fooBar eq_refl eq_refl eq_refl).
Defined.

(** C1 fails on scenario C: with [data-language="diff"] and the lines [foo]
    (flagged [ins]) and [bar] (flagged [del]), the texts of the normalized code
    are still [foo] and [bar]. *)
Lemma diff_language_lines_not_prefixed :
  let sample := Scenario.codeSample (Scenario.language "diff") ∅ Scenario.fooBar in
  let out := improveExpressiveCodeHandling (Root [sample]) in
  dataLanguage (select Selectors.pre sample) = Some (PStr "diff")
  ∧ Forall (fun line => matches Selectors.diffLine line = true) Scenario.fooBar
  ∧ ∃ code, select Selectors.code out = Some code
            ∧ classesOf code = ["language-diff"]
            ∧ textsOf code = ["foo"; "bar"].
Proof.
  split; [reflexivity|]. split; [by repeat constructor|].
  eexists. split; [vm_compute; reflexivity|]. split; reflexivity.
Qed.

(** C4, as the code has it.  The markers are put in when [pre] declares a
    language other than [diff] and some child of [code] is a [div.ec-line]
    flagged [ins] or [del].  Then [code] gets the class token [language-diff],
    and in every such line the first [span] without class [indent], if its
    first child is text, has that text prefixed: with [+] when the line is
    flagged [ins], with [-] otherwise.  When the declared language is [diff],
    [code] gets the class token and its lines stay as they are; when no
    language is declared the widget stays as the removal of the caption label
    left it, without class token and without marker.  The plugin does this to
    every [.expressive-code] element of the tree: it keeps any other node and
    goes on in its children. *)
Theorem flagged_lines_get_markers
    (instance : Node) (preTag : jsstring) (preProps : Properties) (preKids : list Node)
    (language : PropertyValue) (tag : jsstring) (props : Properties) (kids : list Node) :
  let widget := removeTerminalLabel instance in
  let marked :=
    map (fun child => if matches Selectors.diffLine child then markDiffLine child else child)
      kids in
  (select Selectors.pre widget = Some (Element preTag preProps preKids) →
   preProps !! "dataLanguage" = Some language →
   select Selectors.code widget = Some (Element tag props kids) →
   (truthy (Some language) = true →
    isDiff language = false →
    Exists (fun line => matches Selectors.diffLine line = true) kids →
    select Selectors.code (expressiveCodeInstance instance)
      = Some (Element tag (pushClass "language-diff" props) marked)
    ∧ classList (pushClass "language-diff" props) = classList props ++ ["language-diff"])
   ∧ (isDiff language = true →
      select Selectors.code (expressiveCodeInstance instance)
        = Some (Element tag (pushClass "language-diff" props) kids)))
  ∧ (∀ lineTag lineProps lineKids spanTag spanProps value rest,
       matches Selectors.diffLine (Element lineTag lineProps lineKids) = true →
       select Selectors.spanNotIndent (Element lineTag lineProps lineKids)
         = Some (Element spanTag spanProps (Text value :: rest)) →
       select Selectors.spanNotIndent (markDiffLine (Element lineTag lineProps lineKids))
         = Some (Element spanTag spanProps
                   (Text ((if bool_decide ("ins" ∈ classList lineProps) then "+" else "-")
                          +:+ value) :: rest)))
  ∧ (truthy (dataLanguage (select Selectors.pre widget)) = false →
     expressiveCodeInstance instance = widget)
  ∧ (∀ node,
       improveExpressiveCodeHandling node
       = let node' := if matches Selectors.expressiveCode node
                      then expressiveCodeInstance node else node in
         withChildren node' (map improveExpressiveCodeHandling (childrenOf node'))).
Proof.
  intros widget marked. split; [|split; [|split]];
    [| | |apply improveExpressiveCodeHandling_unfold].
  - intros P L C. split.
    + intros T D E. split; [|apply classList_pushClass].
      rewrite (expressiveCodeInstance_code _ _ _ _ _ _ _ _ P L T C).
      unfold setCodeLanguage. rewrite D.
      destruct (List.filter (matches Selectors.diffLine) kids) eqn:F; [|done].
      apply filter_nil_Forall in F. apply Exists_exists in E as (line & Hl & Ml).
      rewrite Forall_forall in F. specialize (F line Hl). congruence.
    + intros D. pose proof (isDiff_true _ D) as ->.
      by rewrite (expressiveCodeInstance_code _ _ _ _ _ _ _ _ P L eq_refl C).
  - intros lineTag lineProps lineKids spanTag spanProps value rest M S.
    rewrite (markDiffLine_eq _ _ _ M).
    rewrite (select_updateSelected _ shallow_spanNotIndent _ _ _ S).
    + done.
    + rewrite prefixFirstChild_matches by apply shallow_spanNotIndent.
      by eapply select_matches.
  - intros T. apply expressiveCodeInstance_unlocated. by left.
Qed.

Lemma flagged_lines_get_markers_witness :
  select Selectors.code
    (expressiveCodeInstance
       (Scenario.codeSample (Scenario.language "js") ∅ Scenario.fooBar))
  = Some (Element "code" (pushClass "language-diff" ∅)
            [Scenario.ecLine "ins" "+foo"; Scenario.ecLine "del" "-bar"]).
Proof.
  refine (proj1 (proj1 (proj1 (flagged_lines_get_markers
           (Scenario.codeSample (Scenario.language "js") ∅ Scenario.fooBar)
           "pre" (Scenario.language "js") [Element "code" ∅ Scenario.fooBar]
           (PStr "js") "code" ∅ Scenario.fooBar)
           eq_refl eq_refl eq_refl) eq_refl eq_refl _)).
  apply Exists_cons_hd. reflexivity.
Defined.

(** C4 fails when the declared language is [diff]: the lines [old] (flagged
    [del]) and [new] (flagged [ins]) are children of [code], [code] gets the
    class token, and the texts are still [old] and [new], without [-] and
    [+].  It fails when no language is declared, too: then [code] gets no class
    either.  And with the language [js] declared, a flagged line whose first
    [span] without class [indent] begins with an element gets no marker in
    front of its text. *)
Lemma flagged_lines_under_diff_not_marked :
  let declared := Scenario.codeSample (Scenario.language "diff") ∅ Scenario.oldNew in
  let undeclared := Scenario.codeSample ∅ ∅ Scenario.oldNew in
  let nested :=
    Scenario.codeSample (Scenario.language "js") ∅
      [Element "div" (Scenario.classes ["ec-line"; "ins"])
         [Element "span" ∅ [Element "b" ∅ [Text "new"]]];
       Element "div" (Scenario.classes ["ec-line"; "del"])
         [Element "span" ∅ [Element "b" ∅ [Text "old"]]]] in
  Forall (fun line => matches Selectors.diffLine line = true) Scenario.oldNew
  ∧ (∃ code, select Selectors.code (improveExpressiveCodeHandling (Root [declared]))
             = Some code
             ∧ classesOf code = ["language-diff"]
             ∧ textsOf code = ["old"; "new"])
  ∧ (∃ code, select Selectors.code (improveExpressiveCodeHandling (Root [undeclared]))
             = Some code
             ∧ classesOf code = []
             ∧ textsOf code = ["old"; "new"])
  ∧ (∃ code, select Selectors.code (improveExpressiveCodeHandling (Root [nested]))
             = Some code
             ∧ Forall (fun line => matches Selectors.diffLine line = true) (childrenOf code)
             ∧ classesOf code = ["language-diff"]
             ∧ textsOf code = ["new"; "old"]).
Proof.
  split; [by repeat constructor|].
  split; [|split]; eexists; (split; [vm_compute; reflexivity|]).
  - split; reflexivity.
  - split; reflexivity.
  - split; [by repeat constructor|]. split; reflexivity.
Qed.

(** C5.  With the language [python] declared and no child
    of [code] flagged, [code] gets the class token [language-python] after the
    tokens it had, and nothing else about it changes; so it carries
    [language-diff] exactly when it did before.  When [pre] is not found, or
    declares no language, or [code] is not found, the widget stays as the
    removal of the caption label left it.  The plugin does this to every
    [.expressive-code] element of the tree: it keeps any other node and goes on
    in its children. *)
Theorem python_language_class
    (instance : Node) (preTag : jsstring) (preProps : Properties) (preKids : list Node)
    (tag : jsstring) (props : Properties) (kids : list Node) :
  let widget := removeTerminalLabel instance in
  (select Selectors.pre widget = Some (Element preTag preProps preKids) →
   preProps !! "dataLanguage" = Some (PStr "python") →
   select Selectors.code widget = Some (Element tag props kids) →
   Forall (fun child => matches Selectors.diffLine child = false) kids →
   select Selectors.code (expressiveCodeInstance instance)
     = Some (Element tag (pushClass "language-python" props) kids)
   ∧ classList (pushClass "language-python" props) = classList props ++ ["language-python"]
   ∧ ("language-diff" ∈ classList (pushClass "language-python" props)
      ↔ "language-diff" ∈ classList props))
  ∧ (truthy (dataLanguage (select Selectors.pre widget)) = false
     ∨ select Selectors.code widget = None →
     expressiveCodeInstance instance = widget)
  ∧ (∀ node,
       improveExpressiveCodeHandling node
       = let node' := if matches Selectors.expressiveCode node
                      then expressiveCodeInstance node else node in
         withChildren node' (map improveExpressiveCodeHandling (childrenOf node'))).
Proof.
  intros widget. split; [|split]; [| |apply improveExpressiveCodeHandling_unfold].
  - intros P L C F. split; [|split].
    + rewrite (expressiveCodeInstance_code _ _ _ _ _ _ _ _ P L eq_refl C).
      unfold setCodeLanguage. change (isDiff (PStr "python")) with false. cbn iota.
      apply filter_nil_Forall in F. by rewrite F.
    + apply classList_pushClass.
    + rewrite classList_pushClass, elem_of_app, elem_of_cons.
      split; [|by left]. intros [H | [H | H]]; [done|done|by inversion H].
  - unfold expressiveCodeInstance. fold widget.
    destruct (dataLanguage (select Selectors.pre widget)) as [language|];
      [|done].
    destruct (select Selectors.code widget); [|done].
    intros [T | ?]; [by rewrite T | done].
Qed.

Lemma python_language_class_witness :
  select Selectors.code
    (expressiveCodeInstance
       (Scenario.codeSample (Scenario.language "python") ∅ [Text "print(1)"]))
  = Some (Element "code" (pushClass "language-python" ∅) [Text "print(1)"])
  ∧ expressiveCodeInstance (Scenario.codeSample ∅ ∅ [Text "print(1)"])
    = removeTerminalLabel (Scenario.codeSample ∅ ∅ [Text "print(1)"]).
Proof.
  split.
  - refine (proj1 (proj1 (python_language_class
             (Scenario.codeSample (Scenario.language "python") ∅ [Text "print(1)"])
             "pre" (Scenario.language "python") [Element "code" ∅ [Text "print(1)"]]
             "code" ∅ [Text "print(1)"]) eq_refl eq_refl eq_refl _)).
    by repeat constructor.
  - refine (proj1 (proj2 (python_language_class
             (Scenario.codeSample ∅ ∅ [Text "print(1)"])
             "" ∅ [] "" ∅ [])) _).
    left. reflexivity.
Defined.

(** C3, as the code has it.  A tabs widget that does not itself carry the
    role [tab] or [tabpanel], with N elements of role [tab] and M of role
    [tabpanel], becomes a [ul] without properties whose children are
    min(N, M) list items; the i-th item is a paragraph with the label of the
    i-th tab, followed by the i-th panel; the label is made of the tab's
    direct text children, trimmed, the empty ones dropped, joined with no
    separator.  That is what the loop body leaves, and the plugin then goes
    on inside the panels: it gives the same list with each panel as the
    plugin leaves that panel.  A node that is not a tabs widget keeps its tag
    and properties, and its children are what the plugin makes of each of
    them, so a widget is flattened where it stands, at any depth. *)
Theorem tabs_flattened_to_list (tag : jsstring) (props : Properties) (kids : list Node) :
  let widget := Element tag props kids in
  let tabs := selectAll Selectors.tab widget in
  let panels := selectAll Selectors.tabpanel widget in
  matches Selectors.tab widget = false →
  matches Selectors.tabpanel widget = false →
  (∃ items,
     tabsInstance widget = Some (Element "ul" ∅ items)
     ∧ length items = Nat.min (length tabs) (length panels)
     ∧ ∀ i tab panel,
         tabs !! i = Some tab → panels !! i = Some panel →
         items !! i
           = Some (Element "li" ∅ [Element "p" ∅ [Text (Spec.labelText tab)]; panel]))
  ∧ (matches Selectors.starlightTabs widget = true →
     improveTabsHandling widget
     = Element "ul" ∅
         <$> mapM (fun pair => flattenedItem pair.1 <$> improveTabsHandling pair.2)
               (zip tabs panels))
  ∧ (∀ parent, matches Selectors.starlightTabs parent = false →
       improveTabsHandling parent
       = withChildren parent <$> mapM improveTabsHandling (childrenOf parent)).
Proof.
  intros widget tabs panels Mt Mp.
  assert (Et : tabs = flat_map (selectAll Selectors.tab) kids).
  { unfold tabs. rewrite selectAll_unfold. fold widget. by rewrite Mt. }
  assert (Ep : panels = flat_map (selectAll Selectors.tabpanel) kids).
  { unfold panels. rewrite selectAll_unfold. fold widget. by rewrite Mp. }
  assert (T : tabsInstance widget = Some (Element "ul" ∅ (zip_with listItem tabs panels))).
  { unfold widget. rewrite (tabsInstance_items _ _ _ Mp). fold widget.
    by rewrite Mt, Et, Ep. }
  split; [|split].
  - exists (zip_with listItem tabs panels).
    split; [done|]. split; [apply length_zip_with|].
    intros i tab panel Ht Hp.
    rewrite lookup_zip_with, Ht, Hp. simpl.
    unfold listItem. by rewrite tabLabel_labelText.
  - intros M. rewrite improveTabsHandling_unfold, M, T.
    cbn [mbind option_bind childrenOf withChildren].
    by rewrite improveTabsHandling_items.
  - intros parent M. by rewrite improveTabsHandling_unfold, M.
Qed.

Lemma tabs_flattened_to_list_witness :
  improveTabsHandling (Root [Scenario.tabsScenario])
  = Some (Root [Element "ul" ∅
                  [Element "li" ∅
                     [Element "p" ∅ [Text "npm"];
                      Element "div" {["role" := PStr "tabpanel"]}
                        [Element "p" ∅ [Text "npm install"]]];
                   Element "li" ∅
                     [Element "p" ∅ [Text "pnpm"];
                      Element "div" {["role" := PStr "tabpanel"]}
                        [Element "p" ∅ [Text "pnpm install"]]]]]).
Proof.
  destruct (tabs_flattened_to_list "starlight-tabs" ∅ (childrenOf Scenario.tabsScenario))
    as (_ & W & P); [vm_compute; reflexivity | vm_compute; reflexivity |].
  rewrite (P (Root [Scenario.tabsScenario]) eq_refl).
  cbn [childrenOf mapM mbind option_bind].
  change (Element "starlight-tabs" ∅ (childrenOf Scenario.tabsScenario))
    with Scenario.tabsScenario in W.
  rewrite (W eq_refl). reflexivity.
Defined.

(** C3 fails for a widget that itself carries a role.  With [role="tab"] the
    widget is the one tab [selectAll] finds, its direct text is [Label], and
    the item's paragraph is empty, because line 127 reads the widget after
    line 120 has emptied it.  With [role="tabpanel"] and a tab inside, the
    widget is the one panel, and no list comes out: the item of line 132
    holds the widget itself. *)
Lemma tabs_widget_carrying_role :
  (selectAll Selectors.tab Scenario.tabsWidgetAsTab = [Scenario.tabsWidgetAsTab]
   ∧ length (selectAll Selectors.tabpanel Scenario.tabsWidgetAsTab) = 1
   ∧ Spec.labelText Scenario.tabsWidgetAsTab = "Label"
   ∧ improveTabsHandling (Root [Scenario.tabsWidgetAsTab])
     = Some (Root [Element "ul" ∅
                     [Element "li" ∅
                        [Element "p" ∅ [Text ""];
                         Element "div" {["role" := PStr "tabpanel"]} [Text "panel"]]]]))
  ∧ (length (selectAll Selectors.tab Scenario.tabsWidgetAsPanel) = 1
     ∧ selectAll Selectors.tabpanel Scenario.tabsWidgetAsPanel
       = [Scenario.tabsWidgetAsPanel]
     ∧ improveTabsHandling (Root [Scenario.tabsWidgetAsPanel]) = None).
Proof. repeat split; vm_compute; reflexivity. Qed.

(** A tabs widget inside a panel is flattened in its turn. *)
Example tabs_nested :
  improveTabsHandling
    (Element "starlight-tabs" ∅
       [Element "a" {["role" := PStr "tab"]} [Text "outer"];
        Element "div" {["role" := PStr "tabpanel"]}
          [Element "starlight-tabs" ∅ [Text "inner"]]])
  = Some (Element "ul" ∅
            [Element "li" ∅
               [Element "p" ∅ [Text "outer"];
                Element "div" {["role" := PStr "tabpanel"]} [Element "ul" ∅ []]]]).
Proof. vm_compute. reflexivity. Qed.

(** * More about [minifyLlmsTxt] *)

Section MinifyMore.
Variable test : Node -> bool.

Lemma clearPath_descendant node d : clearPath test node d → d ∈ descendants node.
Proof.
  induction 1 as [parent child Hc _|parent child d Hc _ _ IH].
  - apply elem_of_descendants. exists child. split; [done|].
    apply elem_of_subnodes. by left.
  - apply elem_of_descendants. exists child. split; [done|].
    apply elem_of_subnodes. by right.
Qed.

(** A node that stays and has children afterwards had them before, with at
    least one of them staying; a node that stays without children is a node
    of the input as it was. *)
Lemma preorder_childless node node' :
  preorder test node = Some node' → childrenOf node' = [] → node' = node.
Proof.
  rewrite preorder_unfold. destruct (test node); [done|].
  destruct (childrenOf node) as [|k rest] eqn:K; [by intros [= <-]|].
  destruct (omap (preorder test) (k :: rest)) as [|k' living] eqn:E; [done|].
  intros [= <-]. rewrite childrenOf_withChildren; [done|]. by rewrite K.
Qed.

Lemma preorder_leaf node :
  test node = false → childrenOf node = [] → preorder test node = Some node.
Proof. intros T K. rewrite preorder_unfold, T, K. done. Qed.

(** A parent that is not selected stays when one of its children stays. *)
Lemma preorder_parent node k k' :
  test node = false → k ∈ childrenOf node → preorder test k = Some k' →
  ∃ node', preorder test node = Some node' ∧ k' ∈ childrenOf node'.
Proof.
  intros T Hk Pk. rewrite preorder_unfold, T.
  assert (L : k' ∈ omap (preorder test) (childrenOf node))
    by (apply list_elem_of_omap; eauto).
  destruct (childrenOf node) as [|c rest] eqn:K; [by inversion Hk|].
  destruct (omap (preorder test) (c :: rest)) as [|c' living] eqn:E; [by inversion L|].
  eexists. split; [done|]. rewrite childrenOf_withChildren; [done|]. by rewrite K.
Qed.

Lemma preorder_keeps_leaf node leaf :
  clearPath test node leaf → childrenOf leaf = [] → test node = false →
  ∃ node', preorder test node = Some node' ∧ leaf ∈ descendants node'.
Proof.
  induction 1 as [parent child Hc Tc|parent child d Hc Tc _ IH]; intros L T.
  - destruct (preorder_parent parent child child T Hc (preorder_leaf _ Tc L))
      as (node' & P & In').
    exists node'. split; [done|].
    apply elem_of_descendants. exists child. split; [done|].
    apply elem_of_subnodes. by left.
  - destruct (IH L Tc) as (child' & Pc & Hd).
    destruct (preorder_parent parent child child' T Hc Pc) as (node' & P & In').
    exists node'. split; [done|].
    apply elem_of_descendants. exists child'. split; [done|].
    apply elem_of_subnodes. by right.
Qed.

Lemma remove_keeps_leaf tree leaf :
  clearPath test tree leaf → childrenOf leaf = [] →
  leaf ∈ descendants (remove test tree).
Proof.
  intros C L. unfold remove.
  assert (G : ∃ k k', k ∈ childrenOf tree ∧ preorder test k = Some k'
                      ∧ leaf ∈ subnodes k').
  { inversion C as [parent child Hc Tc|parent child d Hc Tc Cd]; subst.
    - exists leaf, leaf. split; [done|]. split; [by apply preorder_leaf|].
      apply elem_of_subnodes. by left.
    - destruct (preorder_keeps_leaf child leaf Cd L Tc) as (child' & Pc & Hd).
      exists child, child'. split; [done|]. split; [done|].
      apply elem_of_subnodes. by right. }
  destruct G as (k & k' & Hk & Pk & Hl).
  apply elem_of_descendants. exists k'. split; [|done].
  rewrite childrenOf_withChildren.
  - apply list_elem_of_omap. eauto.
  - intros E. rewrite E in Hk. by inversion Hk.
Qed.

Lemma remove_childless tree node' :
  node' ∈ descendants (remove test tree) → childrenOf node' = [] →
  node' ∈ descendants tree ∧ test node' = false.
Proof.
  intros H K. destruct (remove_origin test tree node' H) as (d & C & P).
  pose proof (preorder_childless _ _ P K) as ->.
  split; [by apply clearPath_descendant|].
  by apply preorder_Some in P as [T _].
Qed.

Lemma remove_idempotent tree :
  Shallow test → remove test (remove test tree) = remove test tree.
Proof. intros Sh. apply remove_id, remove_clean, Sh. Qed.

(** The tree given to [remove] stays, also when all its children go. *)
Lemma remove_all tree :
  Forall (fun k => test k = true) (childrenOf tree) →
  remove test tree = withChildren tree [].
Proof.
  intros F. unfold remove. f_equal.
  induction F as [|k rest Hk _ IH]; [done|].
  cbn [omap list_omap]. fold (omap (preorder test) rest).
  rewrite preorder_unfold, Hk. exact IH.
Qed.

End MinifyMore.

Section TextsFacts.

Lemma textsOf_unfold node :
  textsOf node = match node with
                 | Text value => [value]
                 | _ => flat_map textsOf (childrenOf node)
                 end.
Proof.
  assert (G : ∀ l : list Node,
            omap (fun d => match d with Text value => Some value | _ => None end)
              (flat_map subnodes l) = flat_map textsOf l).
  { induction l as [|k rest IH]; [done|].
    cbn [flat_map]. rewrite omap_app, IH. done. }
  unfold textsOf at 1, subnodes. rewrite descendants_children.
  destruct node; cbn [omap list_omap childrenOf]; try apply G; done.
Qed.

Lemma textsOf_withChildren node kids :
  childrenOf node ≠ [] → textsOf (withChildren node kids) = flat_map textsOf kids.
Proof. destruct node; try done; intros _; by rewrite textsOf_unfold. Qed.

Lemma preorder_texts test node node' :
  preorder test node = Some node' → textsOf node' `sublist_of` textsOf node.
Proof.
  revert node'.
  induction node as [kids IH|tag props kids IH|v|v|] using Node_ind; intros node' H;
    apply preorder_Some in H as [_ ->]; try done.
  all: destruct kids as [|k0 rest0] eqn:K; [done|]; rewrite <- K in *; clear K.
  all: cbn [childrenOf withChildren].
  all: rewrite (textsOf_unfold (_ (omap _ _))), (textsOf_unfold (_ kids)).
  all: cbn [childrenOf].
  all: clear k0 rest0.
  all: induction IH as [|k ks Hk _ IHks]; [done|].
  all: cbn [omap list_omap flat_map]; fold (omap (preorder test) ks).
  all: destruct (preorder test k) as [k'|].
  all: try (cbn [flat_map]; apply sublist_app; [by apply Hk | exact IHks]).
  all: by apply sublist_inserts_l.
Qed.

Lemma remove_texts test tree :
  textsOf (remove test tree) `sublist_of` textsOf tree.
Proof.
  unfold remove.
  destruct (childrenOf tree) as [|k0 rest0] eqn:K.
  { cbn [omap list_omap]. rewrite <- K. by rewrite withChildren_childrenOf. }
  rewrite textsOf_withChildren by (by rewrite K).
  rewrite (textsOf_unfold tree).
  assert (L : flat_map textsOf (omap (preorder test) (k0 :: rest0))
              `sublist_of` flat_map textsOf (k0 :: rest0)).
  { generalize (k0 :: rest0). intros l.
    induction l as [|k ks IHks]; [done|].
    cbn [omap list_omap flat_map]. fold (omap (preorder test) ks).
    destruct (preorder test k) as [k'|] eqn:E.
    - cbn [flat_map]. apply sublist_app; [by eapply preorder_texts | exact IHks].
    - by apply sublist_inserts_l. }
  rewrite K. destruct tree; try done.
Qed.

End TextsFacts.




(** * More about the file-tree plugin *)

Section FileTreeSteps.

(** One step of the walk: the handler on the node when it is a widget, then
    the plugin on each child of what the handler left. *)
Lemma improveFileTreeHandling_unfold node :
  improveFileTreeHandling node
  = let node' := if matches Selectors.starlightFileTree node
                 then fileTreeInstance node else node in
    withChildren node' (map improveFileTreeHandling (childrenOf node')).
Proof.
  unfold improveFileTreeHandling at 1. cbn [forEachSelected]. cbv zeta. f_equal.
  apply map_ext_in. intros k Hk. apply list_elem_of_In in Hk.
  apply improveFileTreeHandling_fuel.
  apply height_child in Hk.
  destruct (matches Selectors.starlightFileTree node); [|lia].
  pose proof (height_remove (matches Selectors.srOnly) node).
  unfold fileTreeInstance in Hk. lia.
Qed.

(** On a widget the plugin is the one call of [remove]: the walk finds
    nothing left to do inside. *)
Lemma improveFileTreeHandling_widget widget :
  matches Selectors.starlightFileTree widget = true →
  improveFileTreeHandling widget = remove (matches Selectors.srOnly) widget.
Proof.
  intros M. unfold improveFileTreeHandling. cbn [forEachSelected]. rewrite M.
  pose proof (remove_clean _ widget shallow_srOnly) as C.
  fold (fileTreeInstance widget) in C |- *.
  rewrite map_fixed; [apply withChildren_childrenOf|].
  apply Forall_forall. intros k Hk. apply fileTree_walk_clean.
  apply Forall_forall. intros d Hd.
  rewrite Forall_forall in C. apply C.
  apply elem_of_descendants. exists k. split; [done|].
  apply elem_of_subnodes. by right.
Qed.

End FileTreeSteps.

(** C8.  The file-tree plugin is the last of the four tree plugins and runs
    whether or not minification is requested.  On a [starlight-file-tree]
    element it is [remove] with the test [.sr-only]: below the widget no node
    matching [.sr-only] is left; every node left is what [remove] made of a
    node of the widget that is no label and has no label above it, so a label
    goes with everything below it; and every childless node that is no label
    and has no label above it is still there.  A node that is not a file tree
    keeps its tag and properties, and its children are what the plugin makes
    of each of them, so the widgets are found at any depth.  Hence in the tree
    the four plugins deliver no node below a file tree matches [.sr-only]. *)
Theorem file_tree_labels_removed
    (minify : MinifyOptions) (shouldMinify : bool) (tree : Node) :
  let label := matches Selectors.srOnly in
  treePlugins minify shouldMinify tree
  = improveFileTreeHandling
      <$> improveTabsHandling
            (improveExpressiveCodeHandling (minifyLlmsTxt minify shouldMinify tree))
  ∧ (∀ widget, matches Selectors.starlightFileTree widget = true →
       let out := improveFileTreeHandling widget in
       out = remove label widget
       ∧ Forall (fun node => label node = false) (descendants out)
       ∧ (∀ node', node' ∈ descendants out →
            ∃ node, clearPath label widget node ∧ preorder label node = Some node')
       ∧ (∀ leaf, clearPath label widget leaf → childrenOf leaf = [] →
            leaf ∈ descendants out))
  ∧ (∀ parent, matches Selectors.starlightFileTree parent = false →
       improveFileTreeHandling parent
       = withChildren parent (map improveFileTreeHandling (childrenOf parent)))
  ∧ (∀ out, treePlugins minify shouldMinify tree = Some out →
       Forall (fun widget =>
                 matches Selectors.starlightFileTree widget = true →
                 Forall (fun node => label node = false) (descendants widget))
         (subnodes out)).
Proof.
  intros label. split; [done|]. split; [|split].
  - intros widget M out. unfold out. rewrite (improveFileTreeHandling_widget _ M).
    split; [done|]. split; [apply remove_clean, shallow_srOnly|].
    split; [intros node'; apply remove_origin | intros leaf; apply remove_keeps_leaf].
  - intros parent M. by rewrite improveFileTreeHandling_unfold, M.
  - intros out. unfold treePlugins.
    destruct (improveTabsHandling _) as [mid|]; [|done].
    intros [= <-]. apply fileTree_walk_ok. lia.
Qed.

Lemma file_tree_labels_removed_witness :
  let widget :=
    Element "starlight-file-tree" ∅
      [Element "span" ∅ [Text "src"];
       Element "span" (Scenario.classes ["sr-only"]) [Text "Directory"]] in
  improveFileTreeHandling widget
    = Element "starlight-file-tree" ∅ [Element "span" ∅ [Text "src"]]
  ∧ Text "src" ∈ descendants (improveFileTreeHandling widget).
Proof.
  intros widget.
  destruct (file_tree_labels_removed minifyDefaults false (Root [widget]))
    as (_ & W & _ & _).
  destruct (W widget eq_refl) as (E & _ & _ & K).
  split; [rewrite E; reflexivity|].
  apply K; [|reflexivity].
  apply (clear_below _ _ (Element "span" ∅ [Text "src"])).
  - apply elem_of_cons. by left.
  - reflexivity.
  - apply clear_child; [|reflexivity]. apply elem_of_cons. by left.
Defined.

(** The file tree keeps its [details] when minification is requested only if
    that option is off; the label goes either way. *)
Example file_tree_scenario :
  textsOf <$> treePlugins minifyDefaults false Scenario.fileTreeScenario = Some ["src"]
  ∧ textsOf <$> treePlugins (resolveMinify
                   {| userNote := None; userTip := None; userCaution := None;
                      userDanger := None; userDetails := Some false;
                      userWhitespace := None; userCustomSelectors := None |})
                  true Scenario.fileTreeScenario = Some ["src"]
  ∧ textsOf <$> treePlugins minifyDefaults true Scenario.fileTreeScenario = Some [].
Proof. repeat split; vm_compute; reflexivity. Qed.

(** * [entryToSimpleMarkdown] *)

Section Passthrough.
Variable rawMDX : bool.
Variable minify : MinifyOptions.
Variable APIContext : Type.
Variable renderToString : AstroContent.CollectionEntry -> APIContext -> jsstring.
Variable rehypeParse : jsstring -> Node.
Variable toMarkdown : Node -> jsstring.

Lemma passthrough_body entry context shouldMinify :
  JsString.endsWith (AstroContent.id entry) ".mdx" = true ∨ rawMDX = true →
  entryToSimpleMarkdown rawMDX minify APIContext renderToString rehypeParse toMarkdown
    entry context shouldMinify
  = Some (default "" (AstroContent.body entry)).
Proof.
  intros H. unfold entryToSimpleMarkdown.
  destruct H as [-> | ->]; [done|]. by rewrite Bool.orb_true_r.
Qed.

Lemma rendered_text entry context shouldMinify :
  JsString.endsWith (AstroContent.id entry) ".mdx" = false → rawMDX = false →
  entryToSimpleMarkdown rawMDX minify APIContext renderToString rehypeParse toMarkdown
    entry context shouldMinify
  = finishMarkdown minify shouldMinify
      <$> (toMarkdown
             <$> treePlugins minify shouldMinify
                   (rehypeParse (renderToString entry context))).
Proof.
  intros E R. unfold entryToSimpleMarkdown, htmlToMarkdownPipeline. rewrite E, R.
  cbn [orb]. by destruct (treePlugins _ _ _).
Qed.

End Passthrough.

(** C6.  For an entry that is rendered (its identifier does not end in
    [.mdx] and [rawMDX] is off), the result is made from [file], the text the
    serializer gives for the tree the plugins deliver, and from nothing else.
    When minification is requested and the [whitespace] option is on, the
    result is the trimmed [file] with every maximal run of white space replaced
    by one space, so no two white-space code units are next to each other and
    the only white space left is the space; otherwise the result is the
    trimmed [file], runs untouched.  Either way the result is trimmed, and
    the collapse is applied to the serialized text, once.  When the plugins
    deliver no tree there is no result. *)
Theorem whitespace_collapse_after_serialization
    (rawMDX : bool) (minify : MinifyOptions) (APIContext : Type)
    (renderToString : AstroContent.CollectionEntry -> APIContext -> jsstring)
    (rehypeParse : jsstring -> Node) (toMarkdown : Node -> jsstring)
    (entry : AstroContent.CollectionEntry) (context : APIContext) (shouldMinify : bool) :
  let result :=
    entryToSimpleMarkdown rawMDX minify APIContext renderToString rehypeParse toMarkdown
      entry context shouldMinify in
  let tree := treePlugins minify shouldMinify (rehypeParse (renderToString entry context)) in
  JsString.endsWith (AstroContent.id entry) ".mdx" = false →
  rawMDX = false →
  (∀ out, tree = Some out →
     let file := toMarkdown out in
     ∃ text,
       result = Some text
       ∧ (shouldMinify = true → whitespace minify = true →
          text = Spec.collapseRuns (JsString.trim file)
          ∧ Spec.noAdjacentWhiteSpace text = true
          ∧ Spec.onlySpaces text = true)
       ∧ (shouldMinify = false ∨ whitespace minify = false → text = JsString.trim file)
       ∧ JsString.trim text = text)
  ∧ (tree = None → result = None).
Proof.
  intros result tree E R. unfold result, tree. rewrite rendered_text by done.
  split; [|by intros ->].
  intros out ->. cbn [fmap option_fmap option_map].
  set (file := toMarkdown out).
  exists (finishMarkdown minify shouldMinify file). split; [done|].
  unfold finishMarkdown. split; [|split].
  - intros -> ->. simpl. rewrite <- collapseWhitespace_runs.
    split; [done|]. split.
    + apply collapseFrom_noAdjacent.
    + apply collapseFrom_onlySpaces.
  - intros [-> | ->]; [done|]. by rewrite Bool.andb_false_r.
  - destruct (trim_clean file) as [A B].
    destruct (shouldMinify && whitespace minify).
    + apply clean_trim.
      * by apply collapseFrom_startsClean.
      * by apply collapseFrom_endsClean.
    + by apply clean_trim.
Qed.

Lemma whitespace_collapse_after_serialization_witness :
  let entry := {| AstroContent.id := "guides/intro.md"; AstroContent.body := None |} in
  let render := fun (_ : AstroContent.CollectionEntry) (_ : unit) => "<p>a b</p>" in
  let parse := fun _ : jsstring => Root [Element "p" ∅ [Text "a b"]] in
  let serialize := fun _ : Node => Scenario.spacedWide in
  entryToSimpleMarkdown false minifyDefaults unit render parse serialize entry tt true
    = Some "a b"
  ∧ entryToSimpleMarkdown false minifyDefaults unit render parse serialize entry tt false
    = Some ("a" +:+ String 0x2003 (String 0x2028 "b")).
Proof.
  intros entry render parse serialize.
  destruct (whitespace_collapse_after_serialization false minifyDefaults unit
              render parse serialize entry tt true eq_refl eq_refl) as [C _].
  destruct (whitespace_collapse_after_serialization false minifyDefaults unit
              render parse serialize entry tt false eq_refl eq_refl) as [K _].
  destruct (C (Root [Element "p" ∅ [Text "a b"]])) as (text & -> & Ct & _ & _).
  { vm_compute. reflexivity. }
  destruct (K (Root [Element "p" ∅ [Text "a b"]])) as (text' & -> & _ & Kt & _).
  { vm_compute. reflexivity. }
  split; f_equal.
  - rewrite (proj1 (Ct eq_refl eq_refl)). reflexivity.
  - rewrite (Kt (or_introl eq_refl)). reflexivity.
Defined.

(** C9.  For an entry whose identifier ends in [.mdx], or when [rawMDX] is on,
    the result is the entry's body as it is; the renderer, the parser, the
    plugins and the serializer have no part in it. *)
Theorem mdx_passthrough
    (rawMDX : bool) (minify : MinifyOptions) (APIContext : Type)
    (renderToString : AstroContent.CollectionEntry -> APIContext -> jsstring)
    (rehypeParse : jsstring -> Node) (toMarkdown : Node -> jsstring)
    (entry : AstroContent.CollectionEntry) (context : APIContext) (shouldMinify : bool)
    (text : jsstring) :
  JsString.endsWith (AstroContent.id entry) ".mdx" = true ∨ rawMDX = true →
  AstroContent.body entry = Some text →
  entryToSimpleMarkdown rawMDX minify APIContext renderToString rehypeParse toMarkdown
    entry context shouldMinify = Some text
  ∧ ∀ minify' renderToString' rehypeParse' toMarkdown' shouldMinify',
      entryToSimpleMarkdown rawMDX minify' APIContext renderToString' rehypeParse'
        toMarkdown' entry context shouldMinify' = Some text.
Proof.
  intros H B. split; [|intros]; rewrite passthrough_body by done; by rewrite B.
Qed.

Lemma mdx_passthrough_witness :
  entryToSimpleMarkdown false minifyDefaults unit
    (fun _ _ => "<p>Title</p>") (fun _ => Root [Element "p" ∅ [Text "Title"]])
    (fun _ => "Title")
    {| AstroContent.id := "guides/intro.mdx"; AstroContent.body := Some "# Title" |}
    tt false
  = Some "# Title".
Proof.
  refine (proj1 (mdx_passthrough false minifyDefaults unit _ _ _
                   {| AstroContent.id := "guides/intro.mdx";
                      AstroContent.body := Some "# Title" |}
                   tt false "# Title" _ eq_refl)).
  left. reflexivity.
Defined.

(** C10.  On the passthrough path the body comes back as it is, with its
    leading and trailing white space and its runs of white space, also when
    minification is requested and the [whitespace] option is on: whenever
    lines 186-190 would change the text, the result differs from what they
    would give.  An entry without body gives the empty string. *)
Theorem passthrough_is_verbatim
    (rawMDX : bool) (minify : MinifyOptions) (APIContext : Type)
    (renderToString : AstroContent.CollectionEntry -> APIContext -> jsstring)
    (rehypeParse : jsstring -> Node) (toMarkdown : Node -> jsstring)
    (entry : AstroContent.CollectionEntry) (context : APIContext) (shouldMinify : bool) :
  JsString.endsWith (AstroContent.id entry) ".mdx" = true ∨ rawMDX = true →
  let result :=
    entryToSimpleMarkdown rawMDX minify APIContext renderToString rehypeParse toMarkdown
      entry context shouldMinify in
  (∀ text, AstroContent.body entry = Some text →
     result = Some text
     ∧ (finishMarkdown minify shouldMinify text ≠ text →
        result ≠ Some (finishMarkdown minify shouldMinify text)))
  ∧ (AstroContent.body entry = None → result = Some "").
Proof.
  intros H result. unfold result. rewrite passthrough_body by done.
  split.
  - intros text ->. split; [done|]. simpl. congruence.
  - by intros ->.
Qed.

Lemma passthrough_is_verbatim_witness :
  let entry := {| AstroContent.id := "reference/api.md";
                  AstroContent.body := Some Scenario.spaced |} in
  let result :=
    entryToSimpleMarkdown true minifyDefaults unit
      (fun _ _ => "") (fun _ => Root []) (fun _ => "") entry tt true in
  result = Some Scenario.spaced
  ∧ finishMarkdown minifyDefaults true Scenario.spaced = "a b"
  ∧ result ≠ Some (finishMarkdown minifyDefaults true Scenario.spaced).
Proof.
  intros entry result.
  destruct (passthrough_is_verbatim true minifyDefaults unit
              (fun _ _ => "") (fun _ => Root []) (fun _ => "") entry tt true
              (or_intror eq_refl)) as [V _].
  destruct (V Scenario.spaced eq_refl) as [E N].
  split; [exact E|]. split; [reflexivity|].
  apply N. discriminate.
Defined.

(** X1.  When the custom selectors decide from the node's own tag and
    properties, minifying a tree that was already minified with the same
    options changes nothing. *)
Theorem minify_idempotent (minify : MinifyOptions) (requested : bool) (tree : Node) :
  Forall (fun selector => Shallow (matches selector)) (customSelectors minify) →
  minifyLlmsTxt minify requested (minifyLlmsTxt minify requested tree)
  = minifyLlmsTxt minify requested tree.
Proof.
  intros Sh. unfold minifyLlmsTxt. destruct requested; [|done]. simpl.
  by apply remove_idempotent, minifyTest_shallow.
Qed.

Lemma minify_idempotent_witness :
  minifyLlmsTxt Scenario.bannerOptions true
    (minifyLlmsTxt Scenario.bannerOptions true Scenario.asideScenario)
  = minifyLlmsTxt Scenario.bannerOptions true Scenario.asideScenario.
Proof.
  apply minify_idempotent.
  constructor; [|constructor]. by intros [] ?.
Defined.

(** With the custom selector ['div:empty'] a second pass removes what the
    first one left: the [div] that the first pass emptied. *)
Example minify_twice_with_empty_selector :
  let tree := Root [Element "div" ∅ [Comment "c"; Element "details" ∅ [Text "more"]];
                    Element "p" ∅ [Text "Body"]] in
  minifyLlmsTxt Scenario.emptyDivOptions true tree
    = Root [Element "div" ∅ [Comment "c"]; Element "p" ∅ [Text "Body"]]
  ∧ minifyLlmsTxt Scenario.emptyDivOptions true
      (minifyLlmsTxt Scenario.emptyDivOptions true tree)
    = Root [Element "p" ∅ [Text "Body"]].
Proof. split; vm_compute; reflexivity. Qed.

(** X2.  When no node below the root is selected the tree comes back as it
    was, also with minification requested; that is so for every tree when
    [details] and the four variants are off and there is no custom selector. *)
Theorem minify_nothing_selected (minify : MinifyOptions) (tree : Node) :
  (Forall (fun node => minifyTest minify node = false) (descendants tree) →
   minifyLlmsTxt minify true tree = tree)
  ∧ (details minify = false → customSelectors minify = [] →
     (∀ variant, variantFlag minify variant = false) →
     minifyLlmsTxt minify true tree = tree).
Proof.
  assert (A : Forall (fun node => minifyTest minify node = false) (descendants tree) →
              minifyLlmsTxt minify true tree = tree).
  { intros F. unfold minifyLlmsTxt. simpl. by apply remove_id. }
  split; [exact A|]. intros D C V. apply A.
  apply Forall_forall. intros node _. unfold minifyTest, selectors.
  rewrite D, C. cbn [existsb].
  rewrite (V Note), (V Tip), (V Caution), (V Danger). cbn [andb orb].
  apply Bool.andb_false_r.
Qed.

(** X3.  Minification keeps every childless node (a text, a comment, an empty
    element) that is not selected and has no selected node above it. *)
Theorem minify_keeps_unselected_leaves (minify : MinifyOptions) (tree leaf : Node) :
  clearPath (minifyTest minify) tree leaf →
  childrenOf leaf = [] →
  leaf ∈ descendants (minifyLlmsTxt minify true tree).
Proof. intros C L. unfold minifyLlmsTxt. simpl. by apply remove_keeps_leaf. Qed.

(** X4.  Below the root minification leaves no emptied container: a node
    without children in the result is a node of the input that had none,
    unchanged, so an element all of whose children were removed is removed
    with them.  The root itself is never removed: when every child of it is
    selected, it is left without children. *)
Theorem minify_leaves_no_emptied_parent (minify : MinifyOptions) (tree : Node) :
  (∀ node, node ∈ descendants (minifyLlmsTxt minify true tree) →
           childrenOf node = [] →
           node ∈ descendants tree ∧ minifyTest minify node = false)
  ∧ (Forall (fun child => minifyTest minify child = true) (childrenOf tree) →
     minifyLlmsTxt minify true tree = withChildren tree []).
Proof.
  unfold minifyLlmsTxt. simpl. split.
  - intros node. apply remove_childless.
  - apply remove_all.
Qed.

Example minify_root_left_empty :
  minifyLlmsTxt minifyDefaults true (Root [Element "details" ∅ [Text "more"]]) = Root [].
Proof. reflexivity. Qed.

(** X5.  With the default options the nodes selected for removal are the
    [details] elements and the asides of variant note or tip, and no others:
    asides of variant caution or danger stay. *)
Theorem minify_defaults_selection (node : Node) :
  minifyTest minifyDefaults node = true
  ↔ ∃ tag props kids,
      node = Element tag props kids
      ∧ (tag = "details"
         ∨ ("starlight-aside" ∈ classList props
            ∧ ("starlight-aside--note" ∈ classList props
               ∨ "starlight-aside--tip" ∈ classList props))).
Proof.
  destruct node as [kids|tag props kids|v|v|].
  1,3-5: (split; [done | by intros (? & ? & ? & ? & _)]).
  unfold minifyTest, selectors, matches, Selectors.details, Selectors.starlightAside,
    variantSelector. cbn.
  rewrite !Bool.andb_true_r, !Bool.orb_false_r.
  split.
  - intros H. exists tag, props, kids. split; [done|].
    apply Bool.orb_true_iff in H as [H | H].
    + left. symmetry. by apply eqb_eq.
    + right. apply andb_prop in H as [A V].
      apply bool_decide_eq_true in A. split; [done|].
      apply Bool.orb_true_iff in V as [V | V]; apply bool_decide_eq_true in V; tauto.
  - intros (? & ? & ? & [= <- <- <-] & [-> | (A & V)]).
    + done.
    + apply Bool.orb_true_iff. right.
      apply andb_true_intro. split; [by apply bool_decide_eq_true|].
      apply Bool.orb_true_iff.
      destruct V as [V | V]; [left | right]; by apply bool_decide_eq_true.
Qed.


(** X6.  Minification only deletes: the texts of the result are texts of
    the input, in the same order, none added and none changed. *)
Theorem minify_only_deletes_text (minify : MinifyOptions) (requested : bool) (tree : Node) :
  textsOf (minifyLlmsTxt minify requested tree) `sublist_of` textsOf tree.
Proof.
  unfold minifyLlmsTxt. destruct requested; [|done]. apply remove_texts.
Qed.

(** * More about the Expressive Code plugin *)

Section UpdateFixed.
Variable selector : Selector.
Hypothesis shallow : Shallow (matches selector).
Variable f : Node -> Node.

(** Assigning to the selected node what it already holds changes nothing. *)
Lemma updateFirst_fixed tree x :
  select selector tree = Some x → f x = x → updateFirst selector f tree = Some tree.
Proof.
  unfold select. revert x.
  induction tree as [kids IH|tag props kids IH|v|v|] using Node_ind; intros x;
    rewrite selectAll_unfold, updateFirst_unfold; cbn [childrenOf]; try done.
  all: assert (L : head (flat_map (selectAll selector) kids) = Some x → f x = x →
                   updateFirstAmong selector f kids = Some kids).
  1,3: (induction IH as [|k ks Hk _ IHks]; [done|];
        cbn [flat_map updateFirstAmong]; fold (updateFirstAmong selector f);
        destruct (selectAll selector k) as [|y ys] eqn:E;
        [ intros S F;
          destruct (updateFirst_selectAll selector shallow f k) as [U _];
          rewrite (U E), (IHks S F); done
        | intros [= ->] F; by rewrite (Hk x eq_refl F) ]).
  - cbn [matches app]. intros S F. by rewrite (L S F).
  - destruct (matches selector (Element tag props kids)).
    + intros [= <-] F. by rewrite F.
    + cbn [app]. intros S F. by rewrite (L S F).
Qed.

Lemma updateSelected_fixed tree x :
  select selector tree = Some x → f x = x → updateSelected selector f tree = tree.
Proof. intros S F. unfold updateSelected. by rewrite (updateFirst_fixed _ _ S F). Qed.

End UpdateFixed.

Section CaptionFacts.

Lemma spliceFirst_none p (l : list Node) :
  Forall (fun x => p x = false) l → spliceFirst p l = l.
Proof. induction 1 as [|x rest Hx _ IH]; [done|]. simpl. by rewrite Hx, IH. Qed.

Lemma spliceFirst_found p (l : list Node) :
  Exists (fun x => p x = true) l →
  ∃ before label after,
    l = before ++ label :: after
    ∧ Forall (fun x => p x = false) before
    ∧ p label = true
    ∧ spliceFirst p l = before ++ after.
Proof.
  induction l as [|x rest IH]; [by inversion 1|].
  intros E. simpl. destruct (p x) eqn:Px.
  - exists [], x, rest. by repeat split.
  - apply Exists_cons in E as [E | E]; [congruence|].
    destruct (IH E) as (before & label & after & -> & F & Pl & S).
    exists (x :: before), label, after. rewrite S. repeat split; try done.
    by constructor.
Qed.

End CaptionFacts.

(** X7.  The caption step of lines 71-79.  Without a [figcaption] in the
    widget, or when the first [figcaption] has no [span.sr-only] child, the
    widget stays as it is.  Otherwise the first [figcaption] loses the first
    such child and keeps all its other children in their order; a second
    label, or a label that is not a direct child, stays. *)
Theorem caption_label_removal (instance : Node) :
  (select Selectors.figcaption instance = None → removeTerminalLabel instance = instance)
  ∧ (∀ figcaption,
       select Selectors.figcaption instance = Some figcaption →
       Forall (fun child => matches Selectors.spanSrOnly child = false)
         (childrenOf figcaption) →
       removeTerminalLabel instance = instance)
  ∧ (∀ figcaption,
       select Selectors.figcaption instance = Some figcaption →
       Exists (fun child => matches Selectors.spanSrOnly child = true)
         (childrenOf figcaption) →
       ∃ before label after,
         childrenOf figcaption = before ++ label :: after
         ∧ Forall (fun child => matches Selectors.spanSrOnly child = false) before
         ∧ matches Selectors.spanSrOnly label = true
         ∧ select Selectors.figcaption (removeTerminalLabel instance)
           = Some (withChildren figcaption (before ++ after))).
Proof.
  unfold removeTerminalLabel. split; [|split].
  - apply updateSelected_none, shallow_figcaption.
  - intros figcaption S F. apply (updateSelected_fixed _ shallow_figcaption _ _ _ S).
    rewrite spliceFirst_none by done. apply withChildren_childrenOf.
  - intros figcaption S E.
    destruct (spliceFirst_found _ _ E) as (before & label & after & K & F & M & Sp).
    exists before, label, after. repeat split; try done.
    rewrite (select_updateSelected _ shallow_figcaption _ _ _ S).
    + by rewrite Sp.
    + rewrite shallow_figcaption. by eapply select_matches.
Qed.

Lemma caption_label_removal_witness :
  select Selectors.figcaption
    (removeTerminalLabel (Scenario.codeSample ∅ ∅ []))
  = Some (Element "figcaption" (Scenario.classes ["header"])
            [Element "span" (Scenario.classes ["title"]) []])
  ∧ removeTerminalLabel (Element "div" (Scenario.classes ["expressive-code"]) [Text "x"])
    = Element "div" (Scenario.classes ["expressive-code"]) [Text "x"].
Proof.
  destruct (caption_label_removal (Scenario.codeSample ∅ ∅ [])) as (_ & _ & C).
  destruct (caption_label_removal
              (Element "div" (Scenario.classes ["expressive-code"]) [Text "x"]))
    as (A & _ & _).
  split; [|exact (A eq_refl)].
  destruct (C (Element "figcaption" (Scenario.classes ["header"])
                 [Element "span" (Scenario.classes ["title"]) [];
                  Element "span" (Scenario.classes ["sr-only"]) [Text "Terminal window"]])
              eq_refl)
    as (before & label & after & K & F & M & S).
  { apply Exists_cons_tl, Exists_cons_hd. reflexivity. }
  rewrite S. f_equal.
  destruct before as [|b0 [|b1 before]].
  - injection K as <- _. discriminate M.
  - injection K as <- <- <-. reflexivity.
  - injection K as _ _ K'. by destruct before.
Defined.

(** X8.  A flagged line gets no marker, and stays as it is, when it has no
    [span] without class [indent], or when the first such [span] does not
    begin with a text node (it is empty or begins with an element). *)
Theorem diff_line_without_text_run (tag : jsstring) (props : Properties) (kids : list Node) :
  let line := Element tag props kids in
  (select Selectors.spanNotIndent line = None → markDiffLine line = line)
  ∧ (∀ span, select Selectors.spanNotIndent line = Some span →
       (∀ value rest, childrenOf span ≠ Text value :: rest) →
       markDiffLine line = line).
Proof.
  intros line. unfold markDiffLine, line.
  destruct (props !! "className") as [[]|]; try done.
  split.
  - apply updateSelected_none, shallow_spanNotIndent.
  - intros span S T. apply (updateSelected_fixed _ shallow_spanNotIndent _ _ _ S).
    unfold prefixFirstChild.
    destruct (childrenOf span) as [|[] rest] eqn:K; try done.
    by destruct (T value rest).
Qed.

Lemma diff_line_without_text_run_witness :
  markDiffLine
    (Element "div" (Scenario.classes ["ec-line"; "ins"])
       [Element "span" (Scenario.classes ["indent"]) [Text "  "];
        Element "span" ∅ [Element "b" ∅ [Text "foo"]]])
  = Element "div" (Scenario.classes ["ec-line"; "ins"])
      [Element "span" (Scenario.classes ["indent"]) [Text "  "];
       Element "span" ∅ [Element "b" ∅ [Text "foo"]]].
Proof.
  refine (proj2 (diff_line_without_text_run "div" (Scenario.classes ["ec-line"; "ins"])
                   [Element "span" (Scenario.classes ["indent"]) [Text "  "];
                    Element "span" ∅ [Element "b" ∅ [Text "foo"]]])
            (Element "span" ∅ [Element "b" ∅ [Text "foo"]]) eq_refl _).
  intros value rest. discriminate.
Defined.

(** X9.  For any non-empty language name, when the name is [diff] or no
    child of [code] is a flagged line, [code] gets the one class token
    [language-] followed by the name, after the tokens it had; its tag, its
    other properties and its children stay. *)
Theorem language_class_token
    (instance : Node) (preTag : jsstring) (preProps : Properties) (preKids : list Node)
    (language : jsstring) (tag : jsstring) (props : Properties) (kids : list Node) :
  let widget := removeTerminalLabel instance in
  select Selectors.pre widget = Some (Element preTag preProps preKids) →
  preProps !! "dataLanguage" = Some (PStr language) →
  language ≠ "" →
  select Selectors.code widget = Some (Element tag props kids) →
  language = "diff"
  ∨ Forall (fun child => matches Selectors.diffLine child = false) kids →
  select Selectors.code (expressiveCodeInstance instance)
    = Some (Element tag (pushClass ("language-" +:+ language) props) kids)
  ∧ classList (pushClass ("language-" +:+ language) props)
    = classList props ++ ["language-" +:+ language]
  ∧ ∀ key, key ≠ "className" →
      pushClass ("language-" +:+ language) props !! key = props !! key.
Proof.
  intros widget P L N C D.
  assert (T : truthy (Some (PStr language)) = true).
  { simpl. destruct (eqb_spec language ""); done. }
  split; [|split].
  - rewrite (expressiveCodeInstance_code _ _ _ _ _ _ _ _ P L T C).
    unfold setCodeLanguage. cbn [isDiff toString].
    destruct D as [-> | F]; [done|].
    apply filter_nil_Forall in F. rewrite F.
    by destruct (JsString.eqb language "diff").
  - apply classList_pushClass.
  - intros key K. unfold pushClass. by rewrite lookup_insert_ne.
Qed.

Lemma language_class_token_witness :
  select Selectors.code
    (expressiveCodeInstance
       (Scenario.codeSample (Scenario.language "rust") (Scenario.classes ["wrap"])
          [Text "fn main() {}"]))
  = Some (Element "code"
            (pushClass "language-rust" (Scenario.classes ["wrap"]))
            [Text "fn main() {}"]).
Proof.
  refine (proj1 (language_class_token
            (Scenario.codeSample (Scenario.language "rust") (Scenario.classes ["wrap"])
               [Text "fn main() {}"])
            "pre" (Scenario.language "rust")
            [Element "code" (Scenario.classes ["wrap"]) [Text "fn main() {}"]]
            "rust" "code" (Scenario.classes ["wrap"]) [Text "fn main() {}"]
            eq_refl eq_refl _ eq_refl _)).
  - discriminate.
  - right. by repeat constructor.
Defined.

(** * More about the walks *)

Section WalkMore.

Lemma forEachSelected_none fuel selector handler node :
  Forall (fun d => matches selector d = false) (subnodes node) →
  forEachSelected fuel selector handler node = node.
Proof.
  revert node. induction fuel as [|fuel IH]; intros node F; [done|].
  simpl. rewrite (Forall_inv F).
  rewrite map_fixed; [apply withChildren_childrenOf|].
  apply Forall_forall. intros k Hk. apply IH.
  apply Forall_forall. intros d Hd.
  rewrite Forall_forall in F. apply F.
  apply elem_of_subnodes. right.
  apply elem_of_descendants. eauto.
Qed.

End WalkMore.

(** X10.  A tree without code samples, tabs and file trees passes through
    the three widget plugins unchanged. *)
Theorem plugins_without_widgets (minify : MinifyOptions) (tree : Node) :
  Forall (fun node => matches Selectors.expressiveCode node = false
                      ∧ matches Selectors.starlightTabs node = false
                      ∧ matches Selectors.starlightFileTree node = false)
    (subnodes tree) →
  treePlugins minify false tree = Some tree.
Proof.
  intros F. unfold treePlugins, minifyLlmsTxt. cbn [negb].
  unfold improveFileTreeHandling, improveTabsHandling, improveExpressiveCodeHandling.
  rewrite (forEachSelected_none _ Selectors.expressiveCode).
  2:{ eapply Forall_impl; [exact F|]. by intros ? (? & _). }
  rewrite (forEachSelectedM_none Selectors.starlightTabs).
  2:{ eapply Forall_impl; [exact F|]. by intros ? (_ & ? & _). }
  cbn [fmap option_fmap option_map]. f_equal.
  apply forEachSelected_none.
  eapply Forall_impl; [exact F|]. by intros ? (_ & _ & ?).
Qed.

Lemma plugins_without_widgets_witness :
  treePlugins minifyDefaults false
    (Root [Element "h1" ∅ [Text "Title"];
           Element "p" (Scenario.classes ["sr-only"]) [Text "Body"]])
  = Some (Root [Element "h1" ∅ [Text "Title"];
                Element "p" (Scenario.classes ["sr-only"]) [Text "Body"]]).
Proof.
  apply (plugins_without_widgets minifyDefaults).
  repeat constructor.
Defined.

(** X11.  After [improveTabsHandling] the tree has no [starlight-tabs]
    element left, at any depth, also when tabs were nested in tabs. *)
Theorem tabs_all_flattened (tree out : Node) :
  improveTabsHandling tree = Some out →
  Forall (fun node => matches Selectors.starlightTabs node = false) (subnodes out).
Proof.
  unfold improveTabsHandling. apply tabs_walk_leaves_none.
  unfold tabsBound. destruct (matches _ tree); lia.
Qed.

Lemma tabs_all_flattened_witness :
  Forall (fun node => matches Selectors.starlightTabs node = false)
    (subnodes (Element "ul" ∅
                 [Element "li" ∅
                    [Element "p" ∅ [Text "outer"];
                     Element "div" {["role" := PStr "tabpanel"]} [Element "ul" ∅ []]]])).
Proof.
  apply (tabs_all_flattened
           (Element "starlight-tabs" ∅
              [Element "a" {["role" := PStr "tab"]} [Text "outer"];
               Element "div" {["role" := PStr "tabpanel"]}
                 [Element "starlight-tabs" ∅ [Text "inner"]]])).
  vm_compute. reflexivity.
Defined.

(** * More about lines 186-190 *)

Section FinishFacts.
Import JsString Spec.

Lemma collapseFrom_fixed s :
  noAdjacentWhiteSpace s = true → onlySpaces s = true →
  ∀ b, (b = true → startsClean s = true) → collapseFrom b s = s.
Proof.
  induction s as [|c rest IH]; [done|].
  intros A O b S.
  assert (A' : noAdjacentWhiteSpace rest = true).
  { destruct rest; [done|]. simpl in A. by apply andb_prop in A as [_ ?]. }
  simpl in O. apply andb_prop in O as [Oc O'].
  simpl. destruct (isWhiteSpace c) eqn:C.
  - destruct b; [by specialize (S eq_refl); simpl in S; rewrite C in S|].
    assert (R : startsClean rest = true).
    { destruct rest as [|d rest']; [done|].
      cbn [noAdjacentWhiteSpace] in A. rewrite C in A.
      apply andb_prop in A as [A _]. exact A. }
    simpl in Oc. apply N.eqb_eq in Oc as ->.
    f_equal. by apply IH.
  - f_equal. by apply IH.
Qed.

Lemma collapseWhitespace_idempotent s :
  collapseWhitespace (collapseWhitespace s) = collapseWhitespace s.
Proof.
  unfold collapseWhitespace. apply collapseFrom_fixed.
  - apply collapseFrom_noAdjacent.
  - apply collapseFrom_onlySpaces.
  - done.
Qed.

Lemma nonWhiteSpace_trimStart s : nonWhiteSpace (trimStart s) = nonWhiteSpace s.
Proof.
  induction s as [|c rest IH]; [done|]. simpl.
  destruct (isWhiteSpace c) eqn:C; [done|]. simpl. by rewrite C.
Qed.

Lemma nonWhiteSpace_trimEnd s : nonWhiteSpace (trimEnd s) = nonWhiteSpace s.
Proof.
  induction s as [|c rest IH]; [done|].
  cbn [trimEnd nonWhiteSpace]. rewrite <- IH.
  destruct (trimEnd rest) as [|d kept]; [|done].
  destruct (isWhiteSpace c) eqn:C; simpl; by rewrite ?C.
Qed.

Lemma nonWhiteSpace_collapseFrom b s :
  nonWhiteSpace (collapseFrom b s) = nonWhiteSpace s.
Proof.
  revert b. induction s as [|c rest IH]; [done|]. intros b. simpl.
  destruct (isWhiteSpace c) eqn:C.
  - destruct b; [apply IH|]. simpl. apply IH.
  - simpl. by rewrite C, IH.
Qed.

Lemma length_trimStart s : (JsString.length (trimStart s) ≤ JsString.length s)%nat.
Proof.
  induction s as [|c rest IH]; [done|]. simpl.
  destruct (isWhiteSpace c); simpl; lia.
Qed.

Lemma length_trimEnd s : (JsString.length (trimEnd s) ≤ JsString.length s)%nat.
Proof.
  induction s as [|c rest IH]; [done|]. cbn [trimEnd].
  destruct (trimEnd rest) as [|d kept].
  - destruct (isWhiteSpace c); simpl; lia.
  - simpl in *. lia.
Qed.

Lemma length_collapseFrom b s :
  (JsString.length (collapseFrom b s) ≤ JsString.length s)%nat.
Proof.
  revert b. induction s as [|c rest IH]; [done|]. intros b. simpl.
  pose proof (IH true). pose proof (IH false).
  destruct (isWhiteSpace c); [destruct b|]; simpl; lia.
Qed.

End FinishFacts.

(** X12.  Lines 186-190 applied to their own result give it back: a text
    that was trimmed, and collapsed when that applies, is not changed by doing
    so again. *)
Theorem finishMarkdown_idempotent
    (minify : MinifyOptions) (shouldMinify : bool) (file : jsstring) :
  finishMarkdown minify shouldMinify (finishMarkdown minify shouldMinify file)
  = finishMarkdown minify shouldMinify file.
Proof.
  unfold finishMarkdown.
  destruct (trim_clean file) as [A B].
  destruct (shouldMinify && whitespace minify).
  - rewrite (clean_trim (JsString.collapseWhitespace (JsString.trim file))).
    + apply collapseWhitespace_idempotent.
    + by apply collapseFrom_startsClean.
    + by apply collapseFrom_endsClean.
  - by apply clean_trim.
Qed.

(** X13.  Lines 186-190 touch white space only: the other code units of the
    serialized text all come through, in their order, and the result is never
    longer than the text. *)
Theorem finishMarkdown_keeps_content
    (minify : MinifyOptions) (shouldMinify : bool) (file : jsstring) :
  nonWhiteSpace (finishMarkdown minify shouldMinify file) = nonWhiteSpace file
  ∧ (JsString.length (finishMarkdown minify shouldMinify file) ≤ JsString.length file)%nat.
Proof.
  unfold finishMarkdown, JsString.trim, JsString.collapseWhitespace.
  pose proof (length_trimStart file).
  pose proof (length_trimEnd (JsString.trimStart file)).
  pose proof (length_collapseFrom false (JsString.trimEnd (JsString.trimStart file))).
  destruct (shouldMinify && whitespace minify);
    rewrite ?nonWhiteSpace_collapseFrom, nonWhiteSpace_trimEnd, nonWhiteSpace_trimStart;
    split; [done|lia|done|lia].
Qed.

(** * More about the tabs and file-tree plugins *)

(** X15.  A tabs widget without any element of role [tab], or without any of
    role [tabpanel], becomes an empty [ul]: all it held is dropped. *)
Theorem tabs_without_pairs (tag : jsstring) (props : Properties) (kids : list Node) :
  let widget := Element tag props kids in
  selectAll Selectors.tab widget = [] ∨ selectAll Selectors.tabpanel widget = [] →
  tabsInstance widget = Some (Element "ul" ∅ []).
Proof.
  intros widget H.
  destruct (matches Selectors.tabpanel widget) eqn:P.
  - unfold widget, tabsInstance. fold widget. rewrite P.
    destruct H as [E | E]; rewrite selectAll_unfold in E; cbn [childrenOf widget] in E.
    + apply app_eq_nil in E as [Et Eb].
      destruct (matches Selectors.tab widget); [done|]. by rewrite Eb.
    + by rewrite P in E.
  - unfold widget. rewrite (tabsInstance_items _ _ _ P). fold widget.
    destruct H as [E | E]; rewrite selectAll_unfold in E; cbn [childrenOf widget] in E.
    + apply app_eq_nil in E as [Et Eb].
      destruct (matches Selectors.tab widget); [done|]. by rewrite Eb.
    + rewrite P in E. cbn [app] in E. rewrite E. by rewrite zip_with_nil_r.
Qed.

Lemma tabs_without_pairs_witness :
  tabsInstance
    (Element "starlight-tabs" ∅
       [Element "a" {["role" := PStr "tab"]} [Text "npm"]; Element "p" ∅ [Text "lost"]])
  = Some (Element "ul" ∅ []).
Proof.
  apply (tabs_without_pairs "starlight-tabs" ∅
           [Element "a" {["role" := PStr "tab"]} [Text "npm"]; Element "p" ∅ [Text "lost"]]).
  right. vm_compute. reflexivity.
Defined.

(** X16.  In a file tree the label stripper only deletes: the texts left are
    texts of the widget in their order, and every childless node that is not
    a label and has no label above it inside the widget is kept. *)
Theorem file_tree_keeps_entries (widget : Node) :
  textsOf (fileTreeInstance widget) `sublist_of` textsOf widget
  ∧ ∀ leaf,
      clearPath (matches Selectors.srOnly) widget leaf →
      childrenOf leaf = [] →
      leaf ∈ descendants (fileTreeInstance widget).
Proof.
  split; [apply remove_texts|]. intros leaf. apply remove_keeps_leaf.
Qed.

(** X17.  A code sample in which nothing is found (no [figcaption], and no
    [pre] with a language or no [code]) is left exactly as it is. *)
Theorem code_sample_without_parts (instance : Node) :
  select Selectors.figcaption instance = None →
  truthy (dataLanguage (select Selectors.pre instance)) = false
  ∨ select Selectors.code instance = None →
  expressiveCodeInstance instance = instance.
Proof.
  intros F H. unfold expressiveCodeInstance.
  assert (R : removeTerminalLabel instance = instance)
    by (by apply updateSelected_none; [apply shallow_figcaption|]).
  rewrite R.
  destruct (dataLanguage (select Selectors.pre instance)) as [language|]; [|done].
  destruct (select Selectors.code instance); [|done].
  destruct H as [T | ?]; [by rewrite T | done].
Qed.

Lemma code_sample_without_parts_witness :
  expressiveCodeInstance
    (Element "div" (Scenario.classes ["expressive-code"])
       [Element "pre" ∅ [Element "code" ∅ [Text "x"]]])
  = Element "div" (Scenario.classes ["expressive-code"])
      [Element "pre" ∅ [Element "code" ∅ [Text "x"]]].
Proof.
  apply code_sample_without_parts; [reflexivity|]. left. reflexivity.
Defined.

Lemma minify_keeps_unselected_leaves_witness :
  Text "Body" ∈ descendants (minifyLlmsTxt minifyDefaults true Scenario.asideScenario).
Proof.
  apply minify_keeps_unselected_leaves; [|reflexivity].
  apply (clear_below _ _ (Element "p" ∅ [Text "Body"])).
  - cbn. apply elem_of_cons. right. apply elem_of_cons. right.
    apply elem_of_cons. by left.
  - reflexivity.
  - apply clear_child; [|reflexivity]. cbn. apply elem_of_cons. by left.
Defined.

Lemma minify_leaves_no_emptied_parent_witness :
  Text "Body" ∈ descendants Scenario.asideScenario
  ∧ minifyTest minifyDefaults (Text "Body") = false.
Proof.
  apply (proj1 (minify_leaves_no_emptied_parent minifyDefaults Scenario.asideScenario));
    [|reflexivity].
  vm_compute. apply elem_of_cons. right. apply elem_of_cons. by left.
Defined.
